(** * MyTelegramBot: the update processor of [bot.py]

    A shallow embedding of [process_updates] (and of the helpers it calls)
    together with the properties of the update-processing state machine:
    topic isolation, administrator binding, code allocation, code insertion
    and the persistence of the state blob and of the offset.

    Conventions of the embedding.
    - A Python [str] is the list of its code points.
    - The JSON blob kept under [REDIS_DATA_KEY] is the record [BotData];
      [json.dumps]/[json.loads] are not modelled, the store holds the record.
      The [dict] of codes is an association list in insertion order, which is
      the iteration order of a Python [dict].
    - Every awaited call on the bot or on Redis is an entry of a trace, with
      the answer of the environment: it returned, or it raised.  A raise that
      the program does not catch ends the run, with the in-memory data as
      they were at that point.  The program catches the raises of
      [get_updates] and of the lookup of a member; the statements about what
      a command sends or about what a run writes assume that the other calls
      they need return, and say so. *)

From Stdlib Require Import String Ascii.
From Stdlib Require Import List ZArith NArith Bool Arith Lia Sorted.
Import ListNotations.
Local Open Scope list_scope.

(** ** Python strings *)

Module PyStr.

Definition char := N.
Definition str := list char.

(** An ASCII literal of the source as a [str]. *)
Fixpoint py (s : string) : str :=
  match s with
  | EmptyString => []
  | String a s' => N_of_ascii a :: py s'
  end.

(** The character written ['\n'] in the source. *)
Definition nl : char := 10%N.

Fixpoint eqb (a b : str) : bool :=
  match a, b with
  | [], [] => true
  | x :: a', y :: b' => N.eqb x y && eqb a' b'
  | _, _ => false
  end.

(** Truth value of a string: [bool(s)]. *)
Definition truthy (s : str) : bool :=
  match s with [] => false | _ :: _ => true end.

(** [s.startswith(prefix)] *)
Fixpoint startswith (s prefix : str) {struct prefix} : bool :=
  match prefix, s with
  | [], _ => true
  | p :: prefix', c :: s' => N.eqb c p && startswith s' prefix'
  | _ :: _, [] => false
  end.

(** [c.isspace()]: the white space of [str.strip()] without argument. *)
Definition isspace (c : char) : bool :=
  ((9 <=? c) && (c <=? 13)
   || (28 <=? c) && (c <=? 32)
   || (c =? 133) || (c =? 160) || (c =? 5760)
   || (8192 <=? c) && (c <=? 8202)
   || (c =? 8232) || (c =? 8233) || (c =? 8239) || (c =? 8287)
   || (c =? 12288))%N.

Fixpoint lstrip (s : str) : str :=
  match s with
  | [] => []
  | c :: s' => if isspace c then lstrip s' else s
  end.

Definition rstrip (s : str) : str := rev (lstrip (rev s)).

(** [s.strip()] *)
Definition strip (s : str) : str := rstrip (lstrip s).

(** [s.split(sep)] for a separator of one character. *)
Fixpoint split (s : str) (sep : char) : list str :=
  match s with
  | [] => [[]]
  | c :: s' =>
      if N.eqb c sep then [] :: split s' sep
      else match split s' sep with
           | line :: lines => (c :: line) :: lines
           | [] => [[c]]
           end
  end.

(** [s.replace(old, new)]: the occurrences of [old] are found from left to
    right and do not overlap; [skip] counts the characters of the
    occurrence found last that are still to be passed over. *)
Fixpoint replace_from (old new : str) (skip : nat) (s : str) : str :=
  match s with
  | [] => []
  | c :: s' =>
      match skip with
      | S k => replace_from old new k s'
      | O =>
          if startswith s old
          then new ++ replace_from old new (length old - 1) s'
          else c :: replace_from old new 0 s'
      end
  end.

Definition replace (s old new : str) : str :=
  match old with
  | [] => new ++ flat_map (fun c => c :: new) s
  | _ :: _ => replace_from old new 0 s
  end.

End PyStr.
Import PyStr.

(** ** Data model *)

(** [aiogram.types.Message], the attributes the program reads. *)
Record Message := {
  chat_id : Z;                       (* message.chat.id *)
  message_thread_id : option Z;      (* message.message_thread_id *)
  from_user : option Z;              (* message.from_user, then its id *)
  text : option str;                 (* message.text *)
  is_topic_message : option bool     (* message.is_topic_message *)
}.

Record Update := {
  update_id : Z;
  message : option Message
}.

(** A value of the [codes] dict: [{"is_used": ...}]; the key may be absent in
    a blob that was not written by the program, hence the option. *)
Record CodeData := { is_used : option bool }.

Definition Codes := list (str * CodeData).

Record Config := {
  target_chat_id : option Z;         (* config.get("target_chat_id") *)
  target_thread_id : option Z        (* config.get("target_thread_id") *)
}.

(** The blob: both keys are present, as in the default and in every blob
    that [save_data] writes. *)
Record BotData := {
  config : Config;
  codes : Codes
}.

(** [{"config": {}, "codes": {}}] *)
Definition default_data : BotData :=
  {| config := {| target_chat_id := None; target_thread_id := None |};
     codes := [] |}.

(** The texts the bot sends, one constructor for each literal of the source. *)
Inductive Answer :=
| OnlyAdministrator                 (* "Эту команду может использовать только администратор." *)
| BotMustBeAdministrator            (* "Я должен быть администратором в этом чате, ..." *)
| UseInsideTopic                    (* "Эту команду нужно использовать внутри темы (топика)." *)
| TopicBound                        (* "✅ Отлично! Теперь я буду работать только в этой теме." *)
| CodeWithRemaining (code : str) (remaining_count : nat)
                                    (* f"<code>{code_to_send}</code>\n\n(Осталось: {remaining_count})" *)
| CodesExhausted                    (* "😔 Увы, все коды закончились." *)
| AddUsage                          (* "После команды /add отправьте список кодов, ..." *)
| AddedCodes (new_codes_count remaining_count : nat)
                                    (* f"👍 Добавлено {new_codes_count} новых кодов.\nВсего доступно: {remaining_count}" *)
| NothingAdded.                     (* "Все эти коды уже были в базе. Новых не добавлено." *)

(** The awaited calls on the two module-level handles [bot] and
    [redis_client]. *)
Inductive Call :=
| GetData                                     (* redis_client.get(REDIS_DATA_KEY) *)
| GetOffset                                   (* redis_client.get(REDIS_OFFSET_KEY) *)
| SetData (data : BotData)                    (* redis_client.set(REDIS_DATA_KEY, json.dumps(data)) *)
| SetOffset (last_update_id : Z)              (* redis_client.set(REDIS_OFFSET_KEY, update_id) *)
| GetUpdates (offset : option Z)              (* bot.get_updates(offset, timeout=20, allowed_updates=["message"]) *)
| GetChatMember (chat user : Z)               (* bot.get_chat_member(chat, user) *)
| MessageReply (to : Message) (answer : Answer)   (* message.reply(text) *)
| SendMessage (chat thread : option Z) (answer : Answer)   (* bot.send_message(chat_id, message_thread_id, text) *)
| SessionClose                                (* bot.session.close() *)
| RedisClose.                                 (* redis_client.close() *)

(** A call with its outcome: [true] when it returned, [false] when it raised. *)
Definition Event := (Call * bool)%type.

(** The world outside the program: which calls return, given what happened
    before, and what the queries answer. *)
Record Env := {
  returns : list Event -> Call -> bool;
  stored_data : option BotData;               (* value under REDIS_DATA_KEY *)
  stored_offset : option Z;                   (* value under REDIS_OFFSET_KEY *)
  new_updates : option Z -> list Update;      (* the batch [get_updates] yields *)
  member_status : list Event -> Z -> Z -> str (* member.status *)
}.

(** ** Operations on the [codes] dict *)

(** [code in codes] *)
Definition contains (codes : Codes) (code : str) : bool :=
  existsb (fun kv => eqb (fst kv) code) codes.

(** [codes.get(code)] *)
Fixpoint lookup (codes : Codes) (code : str) : option CodeData :=
  match codes with
  | [] => None
  | (k, v) :: rest => if eqb k code then Some v else lookup rest code
  end.

(** [not data.get("is_used")], which is also what
    [not data.get("is_used", False)] gives. *)
Definition unused (data : CodeData) : bool :=
  match is_used data with
  | Some true => false
  | _ => true
  end.

(** [next((code for code, data in codes.items() if not data.get("is_used")), None)] *)
Definition next_unused (codes : Codes) : option str :=
  option_map fst (find (fun kv => unused (snd kv)) codes).

(** [codes[code]["is_used"] = True] *)
Fixpoint set_used (codes : Codes) (code : str) : Codes :=
  match codes with
  | [] => []
  | (k, v) :: rest =>
      if eqb k code then (k, {| is_used := Some true |}) :: rest
      else (k, v) :: set_used rest code
  end.

(** [sum(1 for data in codes.values() if not data.get("is_used", False))] *)
Definition remaining (codes : Codes) : nat :=
  List.length (filter (fun kv => unused (snd kv)) codes).

(** One turn of [for code in codes: if code not in bot_data["codes"]: ...],
    on the pair of the dict and of [new_codes_count]. *)
Definition add_code (acc : Codes * nat) (code : str) : Codes * nat :=
  if contains (fst acc) code then acc
  else (fst acc ++ [(code, {| is_used := Some false |})], S (snd acc)).

Definition add_all (candidates : list str) (codes : Codes) : Codes * nat :=
  fold_left add_code candidates (codes, 0).

(** The candidate codes of an [/add] message:
    [codes_text = text.replace('/add', '').strip()] and
    [[line.strip() for line in codes_text.split('\n') if line.strip()]]. *)
Definition candidates (txt : str) : list str :=
  let codes_text := strip (replace txt (py "/add") []) in
  map strip (filter (fun line => truthy (strip line)) (split codes_text nl)).

(** [a == b] on values that are an [int] or [None]. *)
Definition eq_opt (a b : option Z) : bool :=
  match a, b with
  | Some x, Some y => Z.eqb x y
  | None, None => true
  | _, _ => false
  end.

(** [message.chat.id == target_chat_id and
     message.message_thread_id == target_thread_id] *)
Definition is_correct_topic (c : Config) (msg : Message) : bool :=
  eq_opt (Some (chat_id msg)) (target_chat_id c)
  && eq_opt (message_thread_id msg) (target_thread_id c).

(** ** Runs *)

(** What a run holds in memory and what it did so far: the locals [bot_data]
    and [data_changed] of [process_updates], and the trace of its calls. *)
Record Run := {
  bot_data : BotData;
  data_changed : bool;
  trace : list Event
}.

Definition initial : Run :=
  {| bot_data := default_data; data_changed := false; trace := [] |}.

Inductive Res (A : Type) :=
| Val (a : A)          (* the statement completed *)
| Exn.                 (* an exception is propagating *)
Arguments Val {A} a.
Arguments Exn {A}.

Definition M (A : Type) := Run -> Res A * Run.

Definition ret {A} (a : A) : M A := fun r => (Val a, r).

Definition raise {A} : M A := fun r => (Exn, r).

Definition bind {A B} (m : M A) (k : A -> M B) : M B :=
  fun r =>
    match m r with
    | (Val a, r') => k a r'
    | (Exn, r') => (Exn, r')
    end.

Declare Scope run_scope.
Delimit Scope run_scope with run.
Notation "x <- m ;; k" := (bind m (fun x => k))
  (at level 61, m at next level, right associativity) : run_scope.
Notation "m ;; k" := (bind m (fun _ => k))
  (at level 61, right associativity) : run_scope.
Local Open Scope run_scope.

(** [try: body except Exception: handler] *)
Definition try_except {A} (body handler : M A) : M A :=
  fun r =>
    match body r with
    | (Val a, r') => (Val a, r')
    | (Exn, r') => handler r'
    end.

(** [try: body finally: cleanup] *)
Definition try_finally {A} (body : M A) (cleanup : M unit) : M A :=
  fun r =>
    match body r with
    | (res, r') =>
        match cleanup r' with
        | (Val _, r'') => (res, r'')
        | (Exn, r'') => (Exn, r'')
        end
    end.

Definition get_bot_data : M BotData := fun r => (Val (bot_data r), r).

Definition put_bot_data (d : BotData) : M unit :=
  fun r => (Val tt, {| bot_data := d; data_changed := data_changed r;
                       trace := trace r |}).

Definition get_data_changed : M bool := fun r => (Val (data_changed r), r).

(** [data_changed = True] *)
Definition set_data_changed : M unit :=
  fun r => (Val tt, {| bot_data := bot_data r; data_changed := true;
                       trace := trace r |}).

Definition record (e : Event) (r : Run) : Run :=
  {| bot_data := bot_data r; data_changed := data_changed r;
     trace := trace r ++ [e] |}.

Section Program.

Variable env : Env.

(** An awaited call whose value is [answer]: it is written to the trace
    with its outcome, and raises when the environment says so. *)
Definition await {A} (c : Call) (answer : list Event -> A) : M A :=
  fun r =>
    if returns env (trace r) c
    then (Val (answer (trace r)), record (c, true) r)
    else (Exn, record (c, false) r).

Definition call (c : Call) : M unit := await c (fun _ => tt).

(** [load_data] *)
Definition load_data : M BotData :=
  json_data <- await GetData (fun _ => stored_data env) ;;
  match json_data with
  | Some d => ret d
  | None => ret default_data
  end.

(** [save_data] *)
Definition save_data (d : BotData) : M unit := call (SetData d).

(** Lines 78-97: the command [/set_topic].  The [try] block gives [true]
    when it left the turn of the loop with [continue]. *)
Definition check_administrator (msg : Message) : M bool :=
  try_except
    (match from_user msg with
     | None => raise      (* [message.from_user.id] on [None] *)
     | Some user =>
         status <- await (GetChatMember (chat_id msg) user)
                     (fun h => member_status env h (chat_id msg) user) ;;
         if negb (existsb (eqb status) [py "administrator"; py "creator"])
         then call (MessageReply msg OnlyAdministrator) ;; ret true
         else ret false
     end)
    (call (MessageReply msg BotMustBeAdministrator) ;; ret true).

Definition bind_topic (msg : Message) (d : BotData) : BotData :=
  {| config := {| target_chat_id := Some (chat_id msg);
                  target_thread_id := message_thread_id msg |};
     codes := codes d |}.

Definition set_topic (msg : Message) : M unit :=
  left_the_turn <- check_administrator msg ;;
  if left_the_turn then ret tt
  else
    match is_topic_message msg with
    | Some true =>
        d <- get_bot_data ;;
        put_bot_data (bind_topic msg d) ;;
        call (MessageReply msg TopicBound) ;;
        set_data_changed
    | _ => call (MessageReply msg UseInsideTopic)
    end.

(** Lines 111-123: the command [/get]. *)
Definition get_code (msg : Message) (target_chat target_thread : option Z)
  : M unit :=
  d <- get_bot_data ;;
  match next_unused (codes d) with
  | Some (c :: cs) =>
      let code_to_send := c :: cs in
      let codes' := set_used (codes d) code_to_send in
      put_bot_data {| config := config d; codes := codes' |} ;;
      call (SendMessage target_chat target_thread
              (CodeWithRemaining code_to_send (remaining codes'))) ;;
      set_data_changed
  | _ => call (MessageReply msg CodesExhausted)
  end.

(** Lines 126-146: the command [/add]. *)
Definition add_codes (msg : Message) (txt : str) : M unit :=
  match candidates txt with
  | [] => call (MessageReply msg AddUsage)
  | new_codes =>
      d <- get_bot_data ;;
      let (codes', new_codes_count) := add_all new_codes (codes d) in
      put_bot_data {| config := config d; codes := codes' |} ;;
      if (0 <? new_codes_count)%nat
      then call (MessageReply msg
                   (AddedCodes new_codes_count (remaining codes'))) ;;
           set_data_changed
      else call (MessageReply msg NothingAdded)
  end.

(** Lines 71-146: the body of [for update in updates]. *)
Definition process_update (update : Update) : M unit :=
  match message update with
  | None => ret tt
  | Some msg =>
      match text msg with
      | None | Some [] => ret tt
      | Some txt =>
          if startswith txt (py "/set_topic") then set_topic msg
          else
            d <- get_bot_data ;;
            let target_chat := target_chat_id (config d) in
            let target_thread := target_thread_id (config d) in
            if negb (is_correct_topic (config d) msg) then ret tt
            else
              (if startswith txt (py "/get")
               then get_code msg target_chat target_thread
               else ret tt) ;;
              (if startswith txt (py "/add")
               then add_codes msg txt
               else ret tt)
      end
  end.

(** [for update in updates: ...] *)
Fixpoint process_batch (updates : list Update) : M unit :=
  match updates with
  | [] => ret tt
  | update :: rest => process_update update ;; process_batch rest
  end.

(** [updates[-1].update_id], for a batch that is not empty. *)
Definition last_update_id (updates : list Update) : Z :=
  last (map update_id updates) 0%Z.

(** Lines 148-153, what follows the loop: the data are saved when they
    changed, then the offset is. *)
Definition persist (updates : list Update) : M unit :=
  changed <- get_data_changed ;;
  (if changed
   then d <- get_bot_data ;; save_data d
   else ret tt) ;;
  match updates with
  | [] => ret tt
  | _ :: _ => call (SetOffset (last_update_id updates))
  end.

(** [process_updates] *)
Definition process_updates : M unit :=
  d <- load_data ;;
  put_bot_data d ;;
  offset <- await GetOffset (fun _ => stored_offset env) ;;
  let offset := option_map (fun o => (o + 1)%Z) offset in
  fetched <- try_except
               (updates <- await (GetUpdates offset)
                             (fun _ => new_updates env offset) ;;
                ret (Some updates))
               (ret None) ;;
  match fetched with
  | None => ret tt
  | Some [] => ret tt
  | Some updates => process_batch updates ;; persist updates
  end.

(** [main] *)
Definition main : M unit :=
  try_finally process_updates (call SessionClose ;; call RedisClose).

End Program.

(** ** Notions used by the statements *)

Definition keys (codes : Codes) : list str := map fst codes.

(** The keys of the codes that are not used, in the order of the dict. *)
Definition unused_keys (codes : Codes) : list str :=
  map fst (filter (fun kv => unused (snd kv)) codes).

(** What the type [dict] and the command [/add] give: a key occurs once, and
    no key is the empty string. *)
Definition well_formed (codes : Codes) : Prop :=
  NoDup (keys codes) /\ Forall (fun code => truthy code = true) (keys codes).

Definition fresh (code : str) : str * CodeData :=
  (code, {| is_used := Some false |}).

(** What one turn of the loop can do to [bot_data]. *)
Inductive change (update : Update) (d : BotData) : BotData -> Prop :=
| Unchanged :
    change update d d
| Bound msg :
    message update = Some msg ->
    change update d (bind_topic msg d)
| Allocated code :
    next_unused (codes d) = Some code ->
    change update d {| config := config d; codes := set_used (codes d) code |}
| Added cs :
    (forall c, In c cs -> truthy c = true) ->
    change update d
      {| config := config d; codes := fst (add_all cs (codes d)) |}.

(** The writes to the store among the calls of a trace. *)
Definition is_write (c : Call) : bool :=
  match c with
  | SetData _ | SetOffset _ => true
  | _ => false
  end.

Definition writes (tr : list Event) : list Event :=
  filter (fun e => is_write (fst e)) tr.

(** The calls that the loop over the updates makes. *)
Definition in_loop (c : Call) : bool :=
  match c with
  | GetChatMember _ _ | MessageReply _ _ | SendMessage _ _ _ => true
  | _ => false
  end.

(** The store after the calls of a trace: a write that returned replaces the
    value of its key, the first component being the value under
    [REDIS_DATA_KEY] and the second the one under [REDIS_OFFSET_KEY]. *)
Fixpoint store_after (tr : list Event) (store : option BotData * option Z)
  : option BotData * option Z :=
  match tr with
  | [] => store
  | (SetData d, true) :: tr' => store_after tr' (Some d, snd store)
  | (SetOffset z, true) :: tr' => store_after tr' (fst store, Some z)
  | _ :: tr' => store_after tr' store
  end.

(** What [load_data] gives in [env]. *)
Definition loaded (env : Env) : BotData :=
  match stored_data env with
  | Some d => d
  | None => default_data
  end.

(** The offset [get_updates] is called with in [env]. *)
Definition next_offset (env : Env) : option Z :=
  option_map (fun o => (o + 1)%Z) (stored_offset env).




(** The writes of the offset in a trace. *)
Definition offset_writes (tr : list Event) : list Event :=
  filter (fun e => match fst e with SetOffset _ => true | _ => false end) tr.

(** [kept before after]: the keys of [before] are keys of [after], and a code
    that was used is used. *)
Definition kept (before after : Codes) : Prop :=
  (forall k, In k (keys before) -> In k (keys after))
  /\ (forall k d, lookup before k = Some d -> is_used d = Some true ->
        exists d', lookup after k = Some d' /\ is_used d' = Some true).

(** The statuses that [/set_topic] accepts. *)
Definition administrators : list str := [py "administrator"; py "creator"].

(** The calls that send a text to a chat. *)
Definition is_message (c : Call) : bool :=
  match c with
  | MessageReply _ _ | SendMessage _ _ _ => true
  | _ => false
  end.

(** In [env] no [message.reply] and no [bot.send_message] raises. *)
Definition delivers (env : Env) : Prop :=
  forall h c, is_message c = true -> returns env h c = true.

(** The two replies that refuse [/set_topic]. *)
Definition denial (a : Answer) : Prop :=
  a = OnlyAdministrator \/ a = BotMustBeAdministrator.

(** The two fields of a config come from one message. *)
Definition bound_to (msg : Message) : Config :=
  {| target_chat_id := Some (chat_id msg);
     target_thread_id := message_thread_id msg |}.

(** An update that asks for a code in the topic of the config [c]: its text
    starts with [/get], and its chat and thread are those of [c]. *)
Definition allocate_request (c : Config) (update : Update) : Prop :=
  exists msg txt,
    message update = Some msg
    /\ text msg = Some txt
    /\ startswith txt (py "/get") = true
    /\ (Some (chat_id msg), message_thread_id msg)
       = (target_chat_id c, target_thread_id c).

(** The messages that hand out the codes [handed] one after the other to the
    topic of [c]: each carries its code and the number of codes that are
    unused once it is taken, [left] being the number of those that stay
    unused in the end. *)
Fixpoint handed_out (c : Config) (handed : list str) (left : nat)
  : list Event :=
  match handed with
  | [] => []
  | code :: others =>
      (SendMessage (target_chat_id c) (target_thread_id c)
         (CodeWithRemaining code (List.length others + left)), true)
      :: handed_out c others left
  end.

(** The run right after [get_updates] returned: the data are loaded, nothing
    is changed, and the trace holds the two reads and the fetch. *)
Definition fetched (env : Env) : Run :=
  {| bot_data := loaded env;
     data_changed := false;
     trace := [(GetData, true); (GetOffset, true);
               (GetUpdates (next_offset env), true)] |}.

(** The candidates as the specification words them: the command token that
    leads the text is taken off, it alone; the rest is split into lines,
    each line is stripped, and the empty ones are dropped.  To be compared
    with [candidates], which is what the source computes. *)
Definition candidates_spec (txt : str) : list str :=
  let codes_text := strip (skipn (List.length (py "/add")) txt) in
  map strip (filter (fun line => truthy (strip line)) (split codes_text nl)).

(** [old] occurs in [s]. *)
Definition occurs (old s : str) : Prop :=
  exists before after, s = before ++ old ++ after.

(** ** Sample inputs *)

(** An environment in which every call returns, the store is empty, no
    update is pending and every member is an administrator. *)
Definition quiet_env : Env :=
  {| returns := fun _ _ => true;
     stored_data := None;
     stored_offset := None;
     new_updates := fun _ => [];
     member_status := fun _ _ _ => py "administrator" |}.

(** A message with the text [txt] from user 7 in thread [thread] of chat 1. *)
Definition message_in (thread : Z) (txt : str) : Message :=
  {| chat_id := 1;
     message_thread_id := Some thread;
     from_user := Some 7%Z;
     text := Some txt;
     is_topic_message := Some true |}.

Definition update_in (id thread : Z) (txt : str) : Update :=
  {| update_id := id; message := Some (message_in thread txt) |}.

(** A run bound to thread 5 of chat 1, with the codes [cs]. *)
Definition bound_run (cs : Codes) : Run :=
  {| bot_data := {| config := {| target_chat_id := Some 1%Z;
                                 target_thread_id := Some 5%Z |};
                    codes := cs |};
     data_changed := false;
     trace := [] |}.

(** As [quiet_env], with offset 41 in the store and two updates pending. *)
Definition busy_env : Env :=
  {| returns := fun _ _ => true;
     stored_data := None;
     stored_offset := Some 41%Z;
     new_updates := fun _ => [update_in 42 5 (py "/set_topic");
                              update_in 43 5 (py "/get")];
     member_status := fun _ _ _ => py "administrator" |}.

(** As [busy_env], but [get_updates] raises. *)
Definition offline_env : Env :=
  {| returns := fun _ c => match c with GetUpdates _ => false | _ => true end;
     stored_data := None;
     stored_offset := Some 41%Z;
     new_updates := new_updates busy_env;
     member_status := fun _ _ _ => py "administrator" |}.

(** As [quiet_env], but every member is a plain member. *)
Definition member_env : Env :=
  {| returns := fun _ _ => true;
     stored_data := None;
     stored_offset := None;
     new_updates := fun _ => [];
     member_status := fun _ _ _ => py "member" |}.

(** The text ["/add\nX\nX\nY"]. *)
Definition add_x_x_y : str :=
  py "/add" ++ [nl] ++ py "X" ++ [nl] ++ py "X" ++ [nl] ++ py "Y".

(** An [/add] of one code, a link that holds the letters of the command. *)
Definition add_sticker_link : str :=
  py "/add" ++ [nl] ++ py "https://t.me/addstickers/Pack".

(** ** Notions used by the further properties *)

(** An update that the loop passes over under the config [c]: it has no
    message, or no text, or a text that is not [/set_topic] and that either
    comes from another chat or thread than those of [c], or starts with
    neither [/get] nor [/add]. *)
Definition passed_over (c : Config) (update : Update) : bool :=
  match message update with
  | None => true
  | Some msg =>
      match text msg with
      | None | Some [] => true
      | Some txt =>
          negb (startswith txt (py "/set_topic"))
          && (negb (is_correct_topic c msg)
              || negb (startswith txt (py "/get"))
                 && negb (startswith txt (py "/add")))
      end
  end.

(** The candidates that become keys, in the order in which [/add] enters
    them: a candidate counts the first time it occurs, when it is not among
    the keys [seen] so far. *)
Fixpoint new_codes (cs : list str) (seen : list str) : list str :=
  match cs with
  | [] => []
  | c :: cs' =>
      if existsb (fun k => eqb k c) seen then new_codes cs' seen
      else c :: new_codes cs' (seen ++ [c])
  end.

(** The store calls and the fetch return in [env]. *)
Definition store_and_fetch_return (env : Env) : Prop :=
  forall h c,
    match c with
    | GetData | GetOffset | SetData _ | SetOffset _ | GetUpdates _ => True
    | _ => False
    end ->
    returns env h c = true.

(** A code as [/add] stores it: not empty, without white space at either
    end, and without a line break. *)
Definition clean (code : str) : Prop :=
  code <> []
  /\ isspace (hd 0%N code) = false
  /\ isspace (last code 0%N) = false
  /\ ~ In nl code.

(** ** More sample inputs *)

(** A message with the text [txt] from user 7 in chat 1, outside any
    topic. *)
Definition plain_message (txt : str) : Message :=
  {| chat_id := 1;
     message_thread_id := None;
     from_user := Some 7%Z;
     text := Some txt;
     is_topic_message := None |}.

(** As [quiet_env], with two pending updates that are passed over: a message
    that is no command, and an update without message. *)
Definition idle_env : Env :=
  {| returns := fun _ _ => true;
     stored_data := None;
     stored_offset := None;
     new_updates := fun _ => [update_in 42 5 (py "hello");
                              {| update_id := 43; message := None |}];
     member_status := fun _ _ _ => py "administrator" |}.

(** As [busy_env], but no message can be sent. *)
Definition mute_env : Env :=
  {| returns := fun _ c => negb (is_message c);
     stored_data := None;
     stored_offset := Some 41%Z;
     new_updates := new_updates busy_env;
     member_status := fun _ _ _ => py "administrator" |}.

(** An environment that finds the store as the run in [busy_env] left it. *)
Definition resumed_env : Env :=
  {| returns := fun _ _ => true;
     stored_data :=
       fst (store_after (trace (snd (process_updates busy_env initial)))
              (stored_data busy_env, stored_offset busy_env));
     stored_offset :=
       snd (store_after (trace (snd (process_updates busy_env initial)))
              (stored_data busy_env, stored_offset busy_env));
     new_updates := fun _ => [];
     member_status := fun _ _ _ => py "administrator" |}.

(** As [member_env], but the reply that only an administrator may use the
    command raises. *)
Definition strict_env : Env :=
  {| returns := fun _ c =>
                  match c with
                  | MessageReply _ OnlyAdministrator => false
                  | _ => true
                  end;
     stored_data := None;
     stored_offset := None;
     new_updates := fun _ => [];
     member_status := fun _ _ _ => py "member" |}.

(** An environment whose store holds a bound blob with the used code [A1]
    and the unused code [X], and in which one update is pending: an [/add]
    in the topic with the candidates [X], [X] and [Y]. *)
Definition adding_env : Env :=
  {| returns := fun _ _ => true;
     stored_data :=
       Some {| config := {| target_chat_id := Some 1%Z;
                            target_thread_id := Some 5%Z |};
               codes := [(py "A1", {| is_used := Some true |});
                         fresh (py "X")] |};
     stored_offset := Some 41%Z;
     new_updates := fun _ => [update_in 42 5 add_x_x_y];
     member_status := fun _ _ _ => py "member" |}.

(** * Properties *)

(** ** Strings *)

Lemma str_eqb_eq (a b : str) : eqb a b = true <-> a = b.
Proof.
  revert b; induction a as [|x a IH]; intros [|y b]; simpl;
    try (split; (reflexivity || discriminate)).
  rewrite andb_true_iff, N.eqb_eq, IH.
  split; [intros [-> ->]; reflexivity | intros [= -> ->]; auto].
Qed.

Lemma str_eqb_refl (a : str) : eqb a a = true.
Proof. apply str_eqb_eq; reflexivity. Qed.

Lemma str_eqb_neq (a b : str) : eqb a b = false <-> a <> b.
Proof.
  rewrite <- str_eqb_eq. destruct (eqb a b); split; congruence.
Qed.

Lemma startswith_app (s prefix : str) :
  startswith s prefix = true <-> exists rest, s = prefix ++ rest.
Proof.
  revert s; induction prefix as [|p prefix IH]; intros s; simpl.
  - split; [exists s; reflexivity | reflexivity].
  - destruct s as [|c s].
    + split; [discriminate | intros [rest [=]]].
    + rewrite andb_true_iff, N.eqb_eq, IH. split.
      * intros [-> [rest ->]]. exists rest; reflexivity.
      * intros [rest [= -> ->]]. split; [reflexivity | exists rest; reflexivity].
Qed.

(** The three command prefixes exclude one another, and a text that starts
    with one of them is not empty. *)
Lemma get_prefix (txt : str) :
  startswith txt (py "/get") = true ->
  startswith txt (py "/set_topic") = false
  /\ startswith txt (py "/add") = false
  /\ exists c rest, txt = c :: rest.
Proof.
  intros H. apply startswith_app in H as [rest ->].
  repeat split; try reflexivity. simpl. eauto.
Qed.

Lemma add_prefix (txt : str) :
  startswith txt (py "/add") = true ->
  startswith txt (py "/set_topic") = false
  /\ startswith txt (py "/get") = false
  /\ exists c rest, txt = c :: rest.
Proof.
  intros H. apply startswith_app in H as [rest ->].
  repeat split; try reflexivity. simpl. eauto.
Qed.

Lemma set_topic_prefix (txt : str) :
  startswith txt (py "/set_topic") = true -> exists c rest, txt = c :: rest.
Proof.
  intros H. apply startswith_app in H as [rest ->]. simpl. eauto.
Qed.

Lemma candidates_truthy (txt code : str) :
  In code (candidates txt) -> truthy code = true.
Proof.
  unfold candidates. rewrite in_map_iff.
  intros [line [<- H]]. apply filter_In in H. apply H.
Qed.

Lemma eq_opt_eq (a b : option Z) : eq_opt a b = true <-> a = b.
Proof.
  destruct a as [x|], b as [y|]; simpl;
    try (split; (reflexivity || discriminate)).
  rewrite Z.eqb_eq. split; [intros ->; reflexivity | intros [= ->]; reflexivity].
Qed.

Lemma is_correct_topic_eq (c : Config) (msg : Message) :
  is_correct_topic c msg = true <->
  (Some (chat_id msg), message_thread_id msg)
  = (target_chat_id c, target_thread_id c).
Proof.
  unfold is_correct_topic. rewrite andb_true_iff, !eq_opt_eq.
  split; [intros [-> ->]; reflexivity | intros [= -> ->]; auto].
Qed.

(** A config that was never bound matches no message. *)
Lemma unbound_matches_nothing (c : Config) (msg : Message) :
  target_chat_id c = None -> is_correct_topic c msg = false.
Proof.
  intros H. unfold is_correct_topic. rewrite H. reflexivity.
Qed.

(** ** The [codes] dict *)

Lemma contains_In (codes : Codes) (code : str) :
  contains codes code = true <-> In code (keys codes).
Proof.
  unfold contains, keys. rewrite existsb_exists, in_map_iff.
  split; intros [kv [H1 H2]]; exists kv.
  - apply str_eqb_eq in H2. auto.
  - split; [exact H2 | apply str_eqb_eq; exact H1].
Qed.

Lemma contains_not_In (codes : Codes) (code : str) :
  contains codes code = false <-> ~ In code (keys codes).
Proof.
  rewrite <- contains_In. destruct (contains codes code); split; congruence.
Qed.

Lemma lookup_In (codes : Codes) (code : str) (d : CodeData) :
  lookup codes code = Some d -> In code (keys codes).
Proof.
  induction codes as [|[k v] rest IH]; simpl; [discriminate|].
  destruct (eqb k code) eqn:E.
  - apply str_eqb_eq in E. auto.
  - auto.
Qed.

Lemma In_lookup (codes : Codes) (code : str) :
  In code (keys codes) -> exists d, lookup codes code = Some d.
Proof.
  induction codes as [|[k v] rest IH]; simpl; [intros []|].
  destruct (eqb k code) eqn:E; [eauto|].
  intros [H|H]; [apply str_eqb_neq in E; contradiction | auto].
Qed.

Lemma remaining_unused_keys (codes : Codes) :
  remaining codes = List.length (unused_keys codes).
Proof. unfold remaining, unused_keys. now rewrite length_map. Qed.

Lemma unused_keys_incl (codes : Codes) (code : str) :
  In code (unused_keys codes) -> In code (keys codes).
Proof.
  unfold unused_keys, keys. rewrite !in_map_iff.
  intros [kv [H1 H2]]. apply filter_In in H2. exists kv. tauto.
Qed.

Lemma unused_keys_NoDup (codes : Codes) :
  NoDup (keys codes) -> NoDup (unused_keys codes).
Proof.
  unfold unused_keys, keys.
  induction codes as [|[k v] rest IH]; simpl; intros H; [constructor|].
  inversion H as [|? ? Hk Hrest]; subst.
  destruct (unused v); simpl; [constructor|]; auto.
  intros Hin. apply Hk. apply (unused_keys_incl rest k Hin).
Qed.

(** *** [set_used] *)

Lemma set_used_keys (codes : Codes) (code : str) :
  keys (set_used codes code) = keys codes.
Proof.
  induction codes as [|[k v] rest IH]; simpl; [reflexivity|].
  destruct (eqb k code); simpl; [reflexivity | now rewrite IH].
Qed.

Lemma set_used_lookup (codes : Codes) (code k : str) :
  lookup (set_used codes code) k =
  if eqb code k
  then option_map (fun _ => {| is_used := Some true |}) (lookup codes k)
  else lookup codes k.
Proof.
  induction codes as [|[k0 v0] rest IH]; simpl.
  - destruct (eqb code k); reflexivity.
  - destruct (eqb k0 code) eqn:E0; simpl.
    + apply str_eqb_eq in E0; subst k0.
      destruct (eqb code k); reflexivity.
    + destruct (eqb k0 k) eqn:E1.
      * apply str_eqb_eq in E1; subst k0.
        replace (eqb code k) with false; [reflexivity|].
        symmetry. apply str_eqb_neq. apply str_eqb_neq in E0. congruence.
      * exact IH.
Qed.

(** The code that [/get] takes is the first of the unused keys, and marking
    it leaves the others, in their order. *)
Lemma next_unused_head (codes : Codes) :
  next_unused codes = hd_error (unused_keys codes).
Proof.
  unfold next_unused, unused_keys.
  induction codes as [|[k v] rest IH]; simpl; [reflexivity|].
  destruct (unused v); simpl; [reflexivity | exact IH].
Qed.

Lemma set_used_unused_keys (codes : Codes) (code : str) (others : list str) :
  NoDup (keys codes) ->
  unused_keys codes = code :: others ->
  unused_keys (set_used codes code) = others.
Proof.
  unfold unused_keys, keys.
  induction codes as [|[k v] rest IH]; simpl; intros Hnd H; [discriminate|].
  inversion Hnd as [|? ? Hk Hrest]; subst.
  destruct (unused v) eqn:Ev; simpl in H.
  - injection H as -> H. rewrite str_eqb_refl. simpl. exact H.
  - assert (E : eqb k code = false).
    { apply str_eqb_neq. intros ->. apply Hk.
      apply (unused_keys_incl rest code). unfold unused_keys.
      rewrite H. left; reflexivity. }
    rewrite E. simpl. rewrite Ev. auto.
Qed.

(** *** [add_all] *)

Lemma keys_app (a b : Codes) : keys (a ++ b) = keys a ++ keys b.
Proof. apply map_app. Qed.

Lemma keys_fresh (new : list str) : keys (map fresh new) = new.
Proof.
  unfold keys. rewrite map_map. simpl. apply map_id.
Qed.

(** The loop of [/add] appends the candidates that are not yet keys, each
    once, and counts them. *)
Lemma fold_add_code (cs : list str) (codes : Codes) (n : nat) :
  exists new,
    fold_left add_code cs (codes, n)
    = (codes ++ map fresh new, n + List.length new)
    /\ NoDup new
    /\ forall k, In k new <-> In k cs /\ ~ In k (keys codes).
Proof.
  revert codes n. induction cs as [|c cs IH]; intros codes n; simpl.
  - exists []. simpl. rewrite app_nil_r, Nat.add_0_r.
    split; [reflexivity|]. split; [constructor|].
    intros k. simpl. tauto.
  - unfold add_code at 2. simpl.
    destruct (contains codes c) eqn:E.
    + destruct (IH codes n) as [new [H1 [H2 H3]]].
      exists new. split; [exact H1|]. split; [exact H2|].
      intros k. rewrite H3. apply contains_In in E.
      split; [tauto|]. intros [[<-|H] Hk]; [contradiction | tauto].
    + destruct (IH (codes ++ [(c, {| is_used := Some false |})]) (S n))
        as [new [H1 [H2 H3]]].
      apply contains_not_In in E.
      assert (Hc : ~ In c new).
      { intros H. apply H3 in H as [_ H]. apply H.
        rewrite keys_app. apply in_or_app. right. left. reflexivity. }
      exists (c :: new). split; [|split].
      * eapply eq_trans; [exact H1|].
        rewrite <- app_assoc. simpl. f_equal. lia.
      * constructor; assumption.
      * intros k. simpl. rewrite H3, keys_app, in_app_iff. simpl.
        destruct (eqb c k) eqn:Ek.
        -- apply str_eqb_eq in Ek. subst k. tauto.
        -- apply str_eqb_neq in Ek. tauto.
Qed.

Lemma add_all_spec (cs : list str) (codes : Codes) :
  exists new,
    add_all cs codes = (codes ++ map fresh new, List.length new)
    /\ NoDup new
    /\ forall k, In k new <-> In k cs /\ ~ In k (keys codes).
Proof. exact (fold_add_code cs codes 0). Qed.

(** Candidates that are all keys already change nothing. *)
Lemma add_all_present (cs : list str) (codes : Codes) :
  (forall c, In c cs -> In c (keys codes)) ->
  add_all cs codes = (codes, 0).
Proof.
  intros H. destruct (add_all_spec cs codes) as [new [H1 [_ H3]]].
  destruct new as [|k new].
  - rewrite H1. simpl. now rewrite app_nil_r.
  - exfalso. destruct (proj1 (H3 k) (or_introl eq_refl)) as [Hk Hn].
    apply Hn, H, Hk.
Qed.

Lemma lookup_app (a b : Codes) (k : str) :
  lookup (a ++ b) k =
  match lookup a k with Some d => Some d | None => lookup b k end.
Proof.
  induction a as [|[k0 v0] a IH]; simpl; [reflexivity|].
  destruct (eqb k0 k); [reflexivity | exact IH].
Qed.

Lemma lookup_fresh (new : list str) (k : str) :
  In k new -> lookup (map fresh new) k = Some {| is_used := Some false |}.
Proof.
  induction new as [|c new IH]; simpl; [intros []|].
  destruct (eqb c k) eqn:E; [reflexivity|].
  intros [->|H]; [now rewrite str_eqb_refl in E | auto].
Qed.

Lemma lookup_None (codes : Codes) (k : str) :
  ~ In k (keys codes) -> lookup codes k = None.
Proof.
  intros H. destruct (lookup codes k) eqn:E; [|reflexivity].
  apply lookup_In in E. contradiction.
Qed.

Lemma unused_keys_app (a b : Codes) :
  unused_keys (a ++ b) = unused_keys a ++ unused_keys b.
Proof. unfold unused_keys. now rewrite filter_app, map_app. Qed.

Lemma unused_keys_fresh (new : list str) :
  unused_keys (map fresh new) = new.
Proof.
  unfold unused_keys. induction new as [|c new IH]; simpl; [reflexivity|].
  now rewrite IH.
Qed.

(** *** The dict stays well formed *)

Lemma well_formed_nil : well_formed [].
Proof. split; constructor. Qed.

Lemma well_formed_set_used (codes : Codes) (code : str) :
  well_formed codes -> well_formed (set_used codes code).
Proof. unfold well_formed. now rewrite set_used_keys. Qed.

Lemma well_formed_add_all (cs : list str) (codes : Codes) :
  (forall c, In c cs -> truthy c = true) ->
  well_formed codes -> well_formed (fst (add_all cs codes)).
Proof.
  intros Hcs [Hnd Hne].
  destruct (add_all_spec cs codes) as [new [H1 [H2 H3]]].
  rewrite H1. simpl. unfold well_formed.
  rewrite keys_app, keys_fresh. split.
  - apply NoDup_app; [assumption | assumption |].
    intros k Hk Hn. apply H3 in Hn. tauto.
  - apply Forall_app. split; [assumption|].
    apply Forall_forall. intros k Hk. apply Hcs. now apply H3.
Qed.

(** ** Steps of a run *)

Ltac unfold_run :=
  unfold process_update, set_topic, check_administrator, get_code, add_codes,
    save_data, load_data, try_except, bind, ret, raise, call, await,
    get_bot_data, put_bot_data, get_data_changed, set_data_changed, record
    in *.

(** Case analysis on the innermost test of the goal. *)
Ltac break_match :=
  match goal with
  | |- context [match ?x with _ => _ end] =>
      lazymatch x with
      | context [match _ with _ => _ end] => fail
      | _ => destruct x eqn:?
      end
  end.

(** Reduction of the tests that are decided, leaving the literals alone. *)
Ltac step := cbn [fst snd bot_data data_changed trace negb].

Ltac break_all :=
  repeat (break_match;
          cbn [fst snd bot_data data_changed trace] in *;
          try discriminate).

Lemma add_all_fst (cs : list str) (codes codes' : Codes) (n : nat) :
  add_all cs codes = (codes', n) -> codes' = fst (add_all cs codes).
Proof. intros H. now rewrite H. Qed.

Lemma add_all_none (cs : list str) (codes codes' : Codes) (n : nat) :
  add_all cs codes = (codes', n) -> (0 <? n)%nat = false -> codes' = codes.
Proof.
  intros H Hn. destruct (add_all_spec cs codes) as [new [H1 _]].
  rewrite H in H1. injection H1 as -> ->.
  destruct new; [now rewrite app_nil_r | discriminate].
Qed.

Lemma same_data (d : BotData) :
  {| config := config d; codes := codes d |} = d.
Proof. now destruct d. Qed.

(** A text cannot start with both [/get] and [/add]. *)
Ltac prefix_clash :=
  match goal with
  | H1 : startswith ?t (py "/get") = true,
    H2 : startswith ?t (py "/add") = true |- _ =>
      exfalso; destruct (get_prefix t H1) as [_ [H _]]; congruence
  end.

Lemma process_update_change env update r :
  change update (bot_data r) (bot_data (snd (process_update env update r))).
Proof.
  unfold_run. break_all; try prefix_clash; try apply Unchanged;
    try (apply Bound; assumption);
    try (apply Allocated; assumption).
  all: match goal with
       | H : add_all _ _ = _, C : candidates _ = _ |- _ =>
           rewrite (add_all_fst _ _ _ _ H); apply Added; rewrite <- C;
           apply candidates_truthy
       end.
Qed.

Lemma writes_app (a b : list Event) : writes (a ++ b) = writes a ++ writes b.
Proof. apply filter_app. Qed.

(** A turn of the loop only adds calls to the trace, each a lookup of a
    member or a message. *)
Lemma process_update_trace env update r :
  exists evs,
    trace (snd (process_update env update r)) = trace r ++ evs
    /\ Forall (fun e => in_loop (fst e) = true) evs.
Proof.
  unfold_run. break_all; try prefix_clash; rewrite <- ?app_assoc;
    try (exists []; split; [now rewrite app_nil_r | constructor]);
    (eexists; split; [reflexivity | repeat constructor]).
Qed.

Lemma in_loop_no_write (evs : list Event) :
  Forall (fun e => in_loop (fst e) = true) evs -> writes evs = [].
Proof.
  induction 1 as [|[c b] evs H _ IH]; [reflexivity|].
  unfold writes in *. simpl in *. rewrite IH.
  destruct c; try discriminate; reflexivity.
Qed.

(** A turn that completes has set [data_changed] or has left [bot_data] and
    the flag as they were. *)
Lemma process_update_flag env update r :
  fst (process_update env update r) = Val tt ->
  data_changed (snd (process_update env update r)) = true
  \/ (bot_data (snd (process_update env update r)) = bot_data r
      /\ data_changed (snd (process_update env update r)) = data_changed r).
Proof.
  unfold_run. break_all; try prefix_clash; intros _; auto.
  all: match goal with
       | H : add_all _ _ = _, Z : (0 <? _)%nat = false |- _ =>
           rewrite (add_all_none _ _ _ _ H Z), same_data; auto
       end.
Qed.

(** ** Batches *)

Lemma process_batch_cons env update rest r :
  process_batch env (update :: rest) r =
  match process_update env update r with
  | (Val _, r') => process_batch env rest r'
  | (Exn, r') => (Exn, r')
  end.
Proof. reflexivity. Qed.

Lemma process_batch_app env us vs r :
  process_batch env (us ++ vs) r =
  match process_batch env us r with
  | (Val _, r') => process_batch env vs r'
  | (Exn, r') => (Exn, r')
  end.
Proof.
  revert r. induction us as [|u us IH]; intros r.
  - reflexivity.
  - simpl app. rewrite !process_batch_cons.
    destruct (process_update env u r) as [[[]|] r1]; [apply IH | reflexivity].
Qed.

Lemma process_batch_trace env updates r :
  exists evs,
    trace (snd (process_batch env updates r)) = trace r ++ evs
    /\ Forall (fun e => in_loop (fst e) = true) evs.
Proof.
  revert r. induction updates as [|u us IH]; intros r.
  - exists []. simpl. rewrite app_nil_r. split; [reflexivity | constructor].
  - rewrite process_batch_cons.
    destruct (process_update_trace env u r) as [e1 [H1 L1]].
    destruct (process_update env u r) as [[[]|] r1]; simpl in H1.
    + destruct (IH r1) as [e2 [H2 L2]].
      exists (e1 ++ e2). rewrite H2, H1, app_assoc.
      split; [reflexivity | now apply Forall_app].
    + exists e1. auto.
Qed.

Lemma process_batch_flag env updates r :
  fst (process_batch env updates r) = Val tt ->
  data_changed (snd (process_batch env updates r)) = true
  \/ (bot_data (snd (process_batch env updates r)) = bot_data r
      /\ data_changed (snd (process_batch env updates r)) = data_changed r).
Proof.
  revert r. induction updates as [|u us IH]; intros r.
  - simpl. auto.
  - rewrite process_batch_cons.
    pose proof (process_update_flag env u r) as Hu.
    destruct (process_update env u r) as [[[]|] r1]; simpl in Hu.
    + intros H. destruct (IH r1 H) as [Ht|[Hd Hc]]; [auto|].
      destruct (Hu eq_refl) as [Ht'|[Hd' Hc']].
      * left. congruence.
      * right. split; congruence.
    + discriminate.
Qed.

(** ** Topic isolation *)

(** C2. A message that is not a [/set_topic] command and whose chat and thread
    are not the pair of the config is passed over: the turn completes, no call
    is made, and [bot_data], [data_changed] and the trace are as before.  The
    text does not matter, and a message without text is covered too. *)
Theorem other_topic_is_ignored env update msg r :
  message update = Some msg ->
  (forall txt, text msg = Some txt ->
               startswith txt (py "/set_topic") = false) ->
  (Some (chat_id msg), message_thread_id msg)
  <> (target_chat_id (config (bot_data r)),
      target_thread_id (config (bot_data r))) ->
  process_update env update r = (Val tt, r).
Proof.
  intros Hm Hs Hne. unfold process_update. rewrite Hm.
  destruct (text msg) as [[|c txt]|]; try reflexivity.
  rewrite (Hs _ eq_refl). unfold bind, get_bot_data.
  destruct (is_correct_topic (config (bot_data r)) msg) eqn:E.
  - apply is_correct_topic_eq in E. contradiction.
  - reflexivity.
Qed.

(** With a config that was never bound, every such message is passed over. *)
Lemma unbound_ignores_everything env update msg r :
  message update = Some msg ->
  (forall txt, text msg = Some txt ->
               startswith txt (py "/set_topic") = false) ->
  target_chat_id (config (bot_data r)) = None ->
  process_update env update r = (Val tt, r).
Proof.
  intros Hm Hs Hn. unfold process_update. rewrite Hm.
  destruct (text msg) as [[|c txt]|]; try reflexivity.
  rewrite (Hs _ eq_refl). unfold bind, get_bot_data.
  now rewrite (unbound_matches_nothing _ msg Hn).
Qed.

(** ** The invariant of the codes *)

Lemma kept_refl (codes : Codes) : kept codes codes.
Proof. split; eauto. Qed.

Lemma kept_trans (a b c : Codes) : kept a b -> kept b c -> kept a c.
Proof.
  intros [K1 U1] [K2 U2]. split; [auto|].
  intros k d H Hu. destruct (U1 k d H Hu) as [d' [H' Hu']]. eauto.
Qed.

Lemma kept_set_used (codes : Codes) (code : str) :
  kept codes (set_used codes code).
Proof.
  split.
  - intros k. now rewrite set_used_keys.
  - intros k d H Hu. rewrite set_used_lookup, H.
    destruct (eqb code k); simpl; eauto.
Qed.

Lemma kept_add_all (cs : list str) (codes : Codes) :
  kept codes (fst (add_all cs codes)).
Proof.
  destruct (add_all_spec cs codes) as [new [H _]]. rewrite H. simpl.
  split.
  - intros k Hk. rewrite keys_app. apply in_or_app. now left.
  - intros k d Hk Hu. rewrite lookup_app, Hk. eauto.
Qed.

Lemma kept_change update (d d' : BotData) :
  change update d d' -> kept (codes d) (codes d').
Proof.
  intros [| | |]; simpl.
  - apply kept_refl.
  - apply kept_refl.
  - apply kept_set_used.
  - apply kept_add_all.
Qed.

(** C4. Whatever the batch, and whether the loop completes or a call raises
    in the middle of it, every key that [codes] had before is a key
    afterwards, and every code whose [is_used] was true has it true. *)
Theorem codes_are_kept env updates r :
  (forall k,
      In k (keys (codes (bot_data r))) ->
      In k (keys (codes (bot_data (snd (process_batch env updates r))))))
  /\ (forall k d,
        lookup (codes (bot_data r)) k = Some d ->
        is_used d = Some true ->
        exists d',
          lookup (codes (bot_data (snd (process_batch env updates r)))) k
          = Some d'
          /\ is_used d' = Some true).
Proof.
  change (kept (codes (bot_data r))
            (codes (bot_data (snd (process_batch env updates r))))).
  revert r. induction updates as [|u us IH]; intros r.
  - apply kept_refl.
  - rewrite process_batch_cons.
    pose proof (kept_change u _ _ (process_update_change env u r)) as Hu.
    destruct (process_update env u r) as [[[]|] r1]; simpl in Hu.
    + eapply kept_trans; [exact Hu | apply IH].
    + exact Hu.
Qed.

(** ** The command [/set_topic] *)

Lemma is_administrator (status : str) :
  existsb (eqb status) [py "administrator"; py "creator"] = true
  <-> In status administrators.
Proof.
  unfold administrators. rewrite existsb_exists. split.
  - intros [a [Ha E]]. apply str_eqb_eq in E. now subst a.
  - intros H. exists status. split; [exact H | apply str_eqb_refl].
Qed.

Lemma delivers_reply env h msg a :
  delivers env -> returns env h (MessageReply msg a) = true.
Proof. intros D. now apply D. Qed.

Lemma delivers_send env h c t a :
  delivers env -> returns env h (SendMessage c t a) = true.
Proof. intros D. now apply D. Qed.

(** A turn leaves the config as it was or sets both fields from the message
    of the turn, also when a call raises. *)
Lemma config_whole env update r :
  config (bot_data (snd (process_update env update r))) = config (bot_data r)
  \/ exists msg,
       message update = Some msg
       /\ config (bot_data (snd (process_update env update r))) = bound_to msg.
Proof.
  destruct (process_update_change env update r); simpl; eauto.
Qed.

(** C7. A [/set_topic] message that is a topic message, from a sender whose
    status the lookup reports as administrator or creator: the turn sets
    [target_chat_id] and [target_thread_id] to the chat and thread of the
    message, whatever they were, leaves the codes alone, replies once with the
    confirmation, sets [data_changed] and completes; no other call is made, so
    no other command was tried on the message.  Moreover the config after any
    turn of any run, completed or not, is the one before it or has both
    fields from the message of the turn: never one old and one new. *)
Theorem set_topic_binds env update msg txt user r :
  message update = Some msg ->
  text msg = Some txt ->
  startswith txt (py "/set_topic") = true ->
  is_topic_message msg = Some true ->
  from_user msg = Some user ->
  returns env (trace r) (GetChatMember (chat_id msg) user) = true ->
  In (member_status env (trace r) (chat_id msg) user) administrators ->
  delivers env ->
  process_update env update r =
    (Val tt,
     {| bot_data := {| config := bound_to msg; codes := codes (bot_data r) |};
        data_changed := true;
        trace := trace r ++ [(GetChatMember (chat_id msg) user, true);
                             (MessageReply msg TopicBound, true)] |})
  /\ forall env' update' r',
       config (bot_data (snd (process_update env' update' r')))
       = config (bot_data r')
       \/ exists msg',
            message update' = Some msg'
            /\ config (bot_data (snd (process_update env' update' r')))
               = bound_to msg'.
Proof.
  intros Hm Ht Hs Htopic Hu Hret Hadm D. split; [|apply config_whole].
  destruct (set_topic_prefix txt Hs) as [c [rest ->]].
  apply is_administrator in Hadm.
  unfold_run. rewrite Hm, Ht, Hs, Hu, Hret. step.
  rewrite Hadm. step. rewrite Htopic. step.
  rewrite delivers_reply by assumption. step.
  rewrite <- app_assoc. reflexivity.
Qed.

(** C8. A [/set_topic] message whose sender is not known, or for whom the
    lookup raises, or whose status is not administrator or creator: the turn
    leaves [bot_data] and [data_changed] as they were; and when replies are
    delivered it completes, having made the lookup (if there is a sender) and
    then one reply, a refusal, and nothing else. *)
Theorem set_topic_refused env update msg txt r :
  message update = Some msg ->
  text msg = Some txt ->
  startswith txt (py "/set_topic") = true ->
  match from_user msg with
  | None => True
  | Some user =>
      returns env (trace r) (GetChatMember (chat_id msg) user) = false
      \/ ~ In (member_status env (trace r) (chat_id msg) user) administrators
  end ->
  bot_data (snd (process_update env update r)) = bot_data r
  /\ data_changed (snd (process_update env update r)) = data_changed r
  /\ (delivers env ->
      exists lookups a,
        process_update env update r =
          (Val tt,
           {| bot_data := bot_data r;
              data_changed := data_changed r;
              trace := trace r ++ lookups ++ [(MessageReply msg a, true)] |})
        /\ denial a
        /\ match from_user msg with
           | None => lookups = []
           | Some user =>
               exists b, lookups = [(GetChatMember (chat_id msg) user, b)]
           end).
Proof.
  intros Hm Ht Hs Hl.
  destruct (set_topic_prefix txt Hs) as [c [rest ->]].
  unfold_run. rewrite Hm, Ht, Hs.
  destruct (from_user msg) as [user|].
  - destruct (returns env (trace r) (GetChatMember (chat_id msg) user)) eqn:Hr.
    + destruct Hl as [Hl|Hl]; [discriminate|].
      rewrite <- is_administrator in Hl.
      apply not_true_is_false in Hl. step. rewrite Hl. step.
      destruct (returns env _ (MessageReply msg OnlyAdministrator)) eqn:R1;
        step.
      * split; [reflexivity|]. split; [reflexivity|]. intros D.
        exists [(GetChatMember (chat_id msg) user, true)], OnlyAdministrator.
        rewrite <- app_assoc. repeat split; [now left | eauto].
      * destruct (returns env _ (MessageReply msg BotMustBeAdministrator));
          step; (split; [reflexivity|]); (split; [reflexivity|]);
          intros D; rewrite delivers_reply in R1 by assumption;
          discriminate.
    + step.
      destruct (returns env _ (MessageReply msg BotMustBeAdministrator))
        eqn:R1; step; (split; [reflexivity|]); (split; [reflexivity|]);
        intros D.
      * exists [(GetChatMember (chat_id msg) user, false)],
          BotMustBeAdministrator.
        rewrite <- app_assoc. repeat split; [now right | eauto].
      * rewrite delivers_reply in R1 by assumption. discriminate.
  - step.
    destruct (returns env _ (MessageReply msg BotMustBeAdministrator))
      eqn:R1; step; (split; [reflexivity|]); (split; [reflexivity|]);
      intros D.
    + exists [], BotMustBeAdministrator.
      repeat split. now right.
    + rewrite delivers_reply in R1 by assumption. discriminate.
Qed.

(** ** The command [/get] *)

Lemma well_formed_truthy (codes : Codes) (code : str) :
  well_formed codes -> In code (keys codes) ->
  exists c rest, code = c :: rest.
Proof.
  intros [_ H] Hin. rewrite Forall_forall in H. specialize (H code Hin).
  destruct code as [|c rest]; [discriminate | eauto].
Qed.

(** One [/get] in the topic: the first unused code is marked and sent with
    the number of codes left, or the sender is told that none is left. *)
Lemma get_step env update r :
  delivers env ->
  well_formed (codes (bot_data r)) ->
  allocate_request (config (bot_data r)) update ->
  process_update env update r =
  match unused_keys (codes (bot_data r)), message update with
  | code :: others, _ =>
      (Val tt,
       {| bot_data := {| config := config (bot_data r);
                         codes := set_used (codes (bot_data r)) code |};
          data_changed := true;
          trace := trace r ++ handed_out (config (bot_data r)) [code]
                                (List.length others) |})
  | [], Some msg => (Val tt, record (MessageReply msg CodesExhausted, true) r)
  | [], None => (Val tt, r)
  end.
Proof.
  intros D W [msg [txt [Hm [Ht [Hs Hin]]]]].
  destruct (get_prefix txt Hs) as [Hset [Hadd [c [rest ->]]]].
  apply is_correct_topic_eq in Hin.
  unfold_run. rewrite Hm, Ht, Hset, Hin, Hs, Hadd. step.
  rewrite next_unused_head.
  destruct (unused_keys (codes (bot_data r))) as [|code others] eqn:E; simpl.
  - rewrite delivers_reply by assumption. reflexivity.
  - assert (Hk : In code (keys (codes (bot_data r)))).
    { apply unused_keys_incl. rewrite E. now left. }
    destruct (well_formed_truthy _ _ W Hk) as [c0 [rest0 ->]].
    rewrite delivers_send by assumption. step.
    rewrite remaining_unused_keys.
    rewrite (set_used_unused_keys _ _ others (proj1 W) E).
    reflexivity.
Qed.

Lemma lookup_set_used_same (codes : Codes) (code : str) :
  In code (keys codes) ->
  lookup (set_used codes code) code = Some {| is_used := Some true |}.
Proof.
  intros H. rewrite set_used_lookup, str_eqb_refl.
  destruct (In_lookup _ _ H) as [d ->]. reflexivity.
Qed.

Lemma used_kept (before after : Codes) (code : str) :
  kept before after ->
  lookup before code = Some {| is_used := Some true |} ->
  lookup after code = Some {| is_used := Some true |}.
Proof.
  intros [_ K] H. destruct (K _ _ H eq_refl) as [[u] [H1 H2]].
  simpl in H2. rewrite H1, H2. reflexivity.
Qed.

Lemma used_stays_used env updates r (code : str) :
  lookup (codes (bot_data r)) code = Some {| is_used := Some true |} ->
  lookup (codes (bot_data (snd (process_batch env updates r)))) code
  = Some {| is_used := Some true |}.
Proof.
  revert r. induction updates as [|u us IH]; intros r H; [exact H|].
  rewrite process_batch_cons.
  pose proof (used_kept _ _ code
                (kept_change u _ _ (process_update_change env u r)) H) as Hu.
  destruct (process_update env u r) as [[[]|] r1]; simpl in Hu; auto.
Qed.

(** As many [/get] as there are codes in [handed], the first unused ones. *)
Lemma get_batch env :
  delivers env ->
  forall requests r handed rest,
    well_formed (codes (bot_data r)) ->
    Forall (allocate_request (config (bot_data r))) requests ->
    unused_keys (codes (bot_data r)) = handed ++ rest ->
    List.length handed = List.length requests ->
    exists r',
      process_batch env requests r = (Val tt, r')
      /\ config (bot_data r') = config (bot_data r)
      /\ well_formed (codes (bot_data r'))
      /\ unused_keys (codes (bot_data r')) = rest
      /\ trace r' = trace r ++ handed_out (config (bot_data r)) handed
                                 (List.length rest)
      /\ (forall k, In k handed ->
            lookup (codes (bot_data r')) k = Some {| is_used := Some true |})
      /\ (requests <> [] -> data_changed r' = true).
Proof.
  intros D. induction requests as [|u us IH]; intros r handed rest W F E L.
  - destruct handed; [|discriminate]. exists r. simpl.
    rewrite app_nil_r. split; [reflexivity|]. split; [reflexivity|].
    split; [exact W|]. split; [exact E|]. split; [reflexivity|].
    split; [intros k []|congruence].
  - destruct handed as [|k hs]; [discriminate|].
    inversion F as [|? ? Fu Fus]; subst.
    rewrite process_batch_cons, (get_step env u r D W Fu).
    simpl in E. rewrite E.
    set (r1 := {| bot_data := {| config := config (bot_data r);
                                 codes := set_used (codes (bot_data r)) k |};
                  data_changed := true;
                  trace := trace r ++ handed_out (config (bot_data r)) [k]
                                        (List.length (hs ++ rest)) |}).
    assert (Hk : In k (keys (codes (bot_data r)))).
    { apply unused_keys_incl. rewrite E. now left. }
    destruct (IH r1 hs rest) as [r' [P [C [W' [U [T [K Ch]]]]]]].
    + apply well_formed_set_used, W.
    + exact Fus.
    + apply set_used_unused_keys; [apply W | exact E].
    + simpl in L. congruence.
    + exists r'. split; [exact P|]. split; [exact C|]. split; [exact W'|].
      split; [exact U|]. split; [|split].
      * rewrite T. simpl. rewrite <- app_assoc, length_app. reflexivity.
      * intros k' [<-|Hin]; [|auto].
        replace r' with (snd (process_batch env us r1)) by now rewrite P.
        apply used_stays_used. simpl. now apply lookup_set_used_same.
      * intros _. destruct us as [|u' us'].
        -- simpl in P. injection P as <-. reflexivity.
        -- apply Ch. discriminate.
Qed.

(** C1. In a state whose dict of codes is well formed and holds N unused
    codes, N messages that start with [/get], in the topic of the config and
    with the messages delivered, hand out the N unused codes in the order of
    the dict: they are distinct, each goes to the topic in a message that
    carries it with the number of codes left unused after it, each ends with
    [is_used] true, and [data_changed] is set.  One more such message is
    answered to its sender with the notice that the codes are exhausted, and
    changes neither [bot_data] nor [data_changed]. *)
Theorem allocate_until_exhausted env r requests last msg :
  delivers env ->
  well_formed (codes (bot_data r)) ->
  Forall (allocate_request (config (bot_data r))) (requests ++ [last]) ->
  message last = Some msg ->
  List.length requests = remaining (codes (bot_data r)) ->
  exists r_n,
    process_batch env requests r = (Val tt, r_n)
    /\ trace r_n = trace r ++ handed_out (config (bot_data r))
                                (unused_keys (codes (bot_data r))) 0
    /\ NoDup (unused_keys (codes (bot_data r)))
    /\ List.length (unused_keys (codes (bot_data r))) = List.length requests
    /\ (forall k, In k (unused_keys (codes (bot_data r))) ->
          lookup (codes (bot_data r_n)) k = Some {| is_used := Some true |})
    /\ (requests <> [] -> data_changed r_n = true)
    /\ process_update env last r_n =
         (Val tt,
          {| bot_data := bot_data r_n;
             data_changed := data_changed r_n;
             trace := trace r_n ++ [(MessageReply msg CodesExhausted, true)] |}).
Proof.
  intros D W F Hm L.
  apply Forall_app in F as [F Flast].
  inversion Flast as [|? ? Fl _]; subst.
  rewrite remaining_unused_keys in L.
  destruct (get_batch env D requests r (unused_keys (codes (bot_data r))) [])
    as [r_n [P [C [W' [U [T [K Ch]]]]]]]; auto.
  { now rewrite app_nil_r. }
  exists r_n. split; [exact P|]. split; [exact T|].
  split; [apply unused_keys_NoDup, W|]. split; [now symmetry|].
  split; [exact K|]. split; [exact Ch|].
  rewrite <- C in Fl. rewrite (get_step env last r_n D W' Fl), U, Hm.
  reflexivity.
Qed.

(** ** The command [/add] *)

Lemma remaining_app_fresh (codes : Codes) (new : list str) :
  remaining (codes ++ map fresh new) = remaining codes + List.length new.
Proof.
  rewrite !remaining_unused_keys, unused_keys_app, length_app,
    unused_keys_fresh.
  reflexivity.
Qed.

(** One [/add] in the topic, with at least one candidate. *)
Lemma add_step env update msg txt r :
  message update = Some msg ->
  text msg = Some txt ->
  startswith txt (py "/add") = true ->
  (Some (chat_id msg), message_thread_id msg)
  = (target_chat_id (config (bot_data r)),
     target_thread_id (config (bot_data r))) ->
  candidates txt <> [] ->
  delivers env ->
  process_update env update r =
  let (codes', new_codes_count) :=
    add_all (candidates txt) (codes (bot_data r)) in
  (Val tt,
   {| bot_data := {| config := config (bot_data r); codes := codes' |};
      data_changed :=
        if (0 <? new_codes_count)%nat then true else data_changed r;
      trace :=
        trace r ++
        [(MessageReply msg
            (if (0 <? new_codes_count)%nat
             then AddedCodes new_codes_count (remaining codes')
             else NothingAdded), true)] |}).
Proof.
  intros Hm Ht Hs Hin Hc D.
  destruct (add_prefix txt Hs) as [Hset [Hget _]].
  apply is_correct_topic_eq in Hin.
  unfold_run. rewrite Hm, Ht.
  destruct txt as [|c rest]; [discriminate Hs|].
  rewrite Hset, Hin, Hget, Hs.
  step. destruct (candidates (c :: rest)) as [|c0 cs] eqn:Ec; [congruence|].
  destruct (add_all (c0 :: cs) (codes (bot_data r))) as [codes' n].
  step. destruct (0 <? n)%nat; rewrite delivers_reply by assumption;
    reflexivity.
Qed.

(** An [/add] in the topic without any candidate is answered with the usage
    notice and changes nothing. *)
Lemma add_without_candidates env update msg txt r :
  message update = Some msg ->
  text msg = Some txt ->
  startswith txt (py "/add") = true ->
  (Some (chat_id msg), message_thread_id msg)
  = (target_chat_id (config (bot_data r)),
     target_thread_id (config (bot_data r))) ->
  candidates txt = [] ->
  delivers env ->
  process_update env update r
  = (Val tt, record (MessageReply msg AddUsage, true) r).
Proof.
  intros Hm Ht Hs Hin Hc D.
  destruct (add_prefix txt Hs) as [Hset [Hget _]].
  apply is_correct_topic_eq in Hin.
  unfold_run. rewrite Hm, Ht.
  destruct txt as [|c rest]; [discriminate Hs|].
  rewrite Hset, Hin, Hget, Hs, Hc. step.
  rewrite delivers_reply by assumption. reflexivity.
Qed.

(** C6. An [/add] in the topic with at least one candidate, replies being
    delivered: the dict gets, after the entries it had and which stay as they
    were, one unused entry for each candidate that was not a key, a candidate
    that occurs twice being entered once; the reply carries the number of
    entries added and the number of unused codes, and [data_changed] is set;
    when no entry is added the reply says so and [data_changed] is as before.
    A second [/add] with the same candidates, right after, adds nothing:
    it replies that nothing was added and leaves [bot_data] and
    [data_changed] as they were. *)
Theorem add_is_idempotent env update msg txt r :
  message update = Some msg ->
  text msg = Some txt ->
  startswith txt (py "/add") = true ->
  (Some (chat_id msg), message_thread_id msg)
  = (target_chat_id (config (bot_data r)),
     target_thread_id (config (bot_data r))) ->
  candidates txt <> [] ->
  delivers env ->
  exists new r1,
    process_update env update r = (Val tt, r1)
    /\ NoDup new
    /\ (forall k, In k new <->
                  In k (candidates txt) /\ ~ In k (keys (codes (bot_data r))))
    /\ bot_data r1 = {| config := config (bot_data r);
                        codes := codes (bot_data r) ++ map fresh new |}
    /\ trace r1 =
         trace r ++
         [(MessageReply msg
             match new with
             | [] => NothingAdded
             | _ :: _ => AddedCodes (List.length new)
                           (remaining (codes (bot_data r)) + List.length new)
             end, true)]
    /\ data_changed r1 =
         match new with [] => data_changed r | _ :: _ => true end
    /\ forall update' msg' txt',
         message update' = Some msg' ->
         text msg' = Some txt' ->
         startswith txt' (py "/add") = true ->
         (Some (chat_id msg'), message_thread_id msg')
         = (target_chat_id (config (bot_data r)),
            target_thread_id (config (bot_data r))) ->
         candidates txt' = candidates txt ->
         process_update env update' r1 =
           (Val tt,
            {| bot_data := bot_data r1;
               data_changed := data_changed r1;
               trace := trace r1 ++ [(MessageReply msg' NothingAdded, true)] |}).
Proof.
  intros Hm Ht Hs Hin Hc D.
  destruct (add_all_spec (candidates txt) (codes (bot_data r)))
    as [new [H1 [H2 H3]]].
  pose proof (add_step env update msg txt r Hm Ht Hs Hin Hc D) as P.
  rewrite H1 in P.
  eexists new, _. split; [exact P|]. split; [exact H2|]. split; [exact H3|].
  cbn [bot_data data_changed trace].
  split; [reflexivity|]. split; [|split].
  - rewrite remaining_app_fresh. destruct new; reflexivity.
  - destruct new; reflexivity.
  - intros update' msg' txt' Hm' Ht' Hs' Hin' Hc'.
    rewrite (add_step env update' msg' txt' _ Hm' Ht' Hs') ;
      [|exact Hin'|congruence|exact D].
    cbn [bot_data data_changed trace codes config].
    rewrite Hc', add_all_present; [reflexivity|].
    intros c Hcin. rewrite keys_app, keys_fresh. apply in_or_app.
    destruct (contains (codes (bot_data r)) c) eqn:E.
    + left. now apply contains_In.
    + right. apply H3. split; [exact Hcin | now apply contains_not_In].
Qed.

(** ** Whole runs *)





(** [process_updates] stage by stage. *)
Lemma process_updates_stages env :
  process_updates env initial =
  if returns env [] GetData then
    if returns env [(GetData, true)] GetOffset then
      if returns env [(GetData, true); (GetOffset, true)]
           (GetUpdates (next_offset env))
      then
        match new_updates env (next_offset env) with
        | [] => (Val tt, fetched env)
        | _ :: _ =>
            (process_batch env (new_updates env (next_offset env)) ;;
             persist env (new_updates env (next_offset env))) (fetched env)
        end
      else
        (Val tt,
         {| bot_data := loaded env;
            data_changed := false;
            trace := [(GetData, true); (GetOffset, true);
                      (GetUpdates (next_offset env), false)] |})
    else
      (Exn,
       {| bot_data := loaded env;
          data_changed := false;
          trace := [(GetData, true); (GetOffset, false)] |})
  else
    (Exn,
     {| bot_data := default_data;
        data_changed := false;
        trace := [(GetData, false)] |}).
Proof.
  unfold process_updates, persist, fetched, loaded, next_offset, load_data,
    try_except, bind, ret, await, put_bot_data, record, initial.
  cbn [trace bot_data data_changed app].
  destruct (returns env _ GetData); [|reflexivity].
  destruct (stored_data env) as [d|];
    cbn [trace bot_data data_changed app];
    (destruct (returns env _ GetOffset); [|reflexivity]);
    cbn [trace bot_data data_changed app];
    (destruct (returns env _ (GetUpdates _)); [|reflexivity]);
    destruct (new_updates env _); reflexivity.
Qed.

Lemma persist_run env update rest r :
  persist env (update :: rest) r =
  if data_changed r then
    if returns env (trace r) (SetData (bot_data r)) then
      (if returns env (trace r ++ [(SetData (bot_data r), true)])
            (SetOffset (last_update_id (update :: rest)))
       then Val tt else Exn,
       {| bot_data := bot_data r;
          data_changed := data_changed r;
          trace := trace r ++
                   [(SetData (bot_data r), true);
                    (SetOffset (last_update_id (update :: rest)),
                     returns env (trace r ++ [(SetData (bot_data r), true)])
                       (SetOffset (last_update_id (update :: rest))))] |})
    else
      (Exn,
       {| bot_data := bot_data r;
          data_changed := data_changed r;
          trace := trace r ++ [(SetData (bot_data r), false)] |})
  else
    (if returns env (trace r) (SetOffset (last_update_id (update :: rest)))
     then Val tt else Exn,
     {| bot_data := bot_data r;
        data_changed := data_changed r;
        trace := trace r ++
                 [(SetOffset (last_update_id (update :: rest)),
                   returns env (trace r)
                     (SetOffset (last_update_id (update :: rest))))] |}).
Proof.
  unfold persist, save_data, call, await, bind, ret, get_data_changed,
    get_bot_data, record.
  destruct (data_changed r) eqn:C; cbn [trace bot_data data_changed].
  - destruct (returns env (trace r) (SetData (bot_data r)));
      cbn [trace bot_data data_changed]; rewrite ?C; [|reflexivity].
    destruct (returns env _ (SetOffset _));
      cbn [trace bot_data data_changed]; rewrite <- app_assoc, ?C;
      reflexivity.
  - destruct (returns env _ (SetOffset _)); rewrite ?C; reflexivity.
Qed.

Lemma persist_data env updates r :
  bot_data (snd (persist env updates r)) = bot_data r
  /\ data_changed (snd (persist env updates r)) = data_changed r.
Proof.
  unfold persist, save_data, call, await, bind, ret, get_data_changed,
    get_bot_data, record.
  destruct (data_changed r) eqn:C; cbn [trace bot_data data_changed];
    [destruct (returns env (trace r) (SetData (bot_data r)));
     cbn [snd trace bot_data data_changed]; auto|];
    (destruct updates; cbn [snd bot_data data_changed]; auto;
     destruct (returns env _ (SetOffset _));
     cbn [snd bot_data data_changed]; auto).
Qed.

Lemma store_after_app (a b : list Event) store :
  store_after (a ++ b) store = store_after b (store_after a store).
Proof.
  revert store. induction a as [|[c ok] a IH]; intros store; [reflexivity|].
  destruct c, ok; simpl; apply IH.
Qed.

Lemma store_after_no_write (tr : list Event) store :
  writes tr = [] -> store_after tr store = store.
Proof.
  unfold writes. induction tr as [|[c ok] tr IH]; [reflexivity|].
  destruct c, ok; simpl; try discriminate; exact IH.
Qed.

(** What follows a fetch that gave updates: the loop, then the writes. *)
Lemma after_fetch env updates :
  let run := (process_batch env updates ;; persist env updates) (fetched env) in
  let rb := snd (process_batch env updates (fetched env)) in
  exists evs,
    trace rb = trace (fetched env) ++ evs
    /\ Forall (fun e => in_loop (fst e) = true) evs
    /\ bot_data (snd run) = bot_data rb
    /\ data_changed (snd run) = data_changed rb
    /\ (fst (process_batch env updates (fetched env)) = Exn /\ run = (Exn, rb)
        \/ fst (process_batch env updates (fetched env)) = Val tt
           /\ run = persist env updates rb).
Proof.
  intros run rb. subst run rb. unfold bind.
  destruct (process_batch_trace env updates (fetched env)) as [evs [T L]].
  exists evs. split; [exact T|]. split; [exact L|].
  destruct (process_batch env updates (fetched env)) as [[[]|] rb];
    cbn [fst snd].
  - destruct (persist_data env updates rb) as [Hd Hc]. auto.
  - auto.
Qed.

(** C10. In any run, once the write of the offset is made it is the last
    call of the run; when [data_changed] is set, the call just before it is
    the write of the data as they are in memory, and it returned; when it is
    not set, the data in memory are the data that were loaded; and there is
    no other write.  So when the offset is written, what [load_data] would
    read from the store is what the run has in memory. *)
Theorem data_written_before_offset env z ok :
  let r := snd (process_updates env initial) in
  In (SetOffset z, ok) (trace r) ->
  (exists before,
     writes before = []
     /\ (data_changed r = true
         /\ trace r = before ++ [(SetData (bot_data r), true);
                                 (SetOffset z, ok)]
         \/ data_changed r = false
            /\ bot_data r = loaded env
            /\ trace r = before ++ [(SetOffset z, ok)]))
  /\ (ok = true ->
      match fst (store_after (trace r) (stored_data env, stored_offset env))
      with Some d => d | None => default_data end = bot_data r
      /\ snd (store_after (trace r) (stored_data env, stored_offset env))
         = Some z).
Proof.
  intros r. subst r. rewrite process_updates_stages.
  destruct (returns env _ GetData);
    [|simpl; intros [H|[]]; discriminate].
  destruct (returns env _ GetOffset);
    [|simpl; intros [H|[H|[]]]; discriminate].
  destruct (returns env _ (GetUpdates _));
    [|simpl; intros [H|[H|[H|[]]]]; discriminate].
  destruct (new_updates env (next_offset env)) as [|u us] eqn:N;
    [simpl; intros [H|[H|[H|[]]]]; discriminate|].
  destruct (after_fetch env (u :: us)) as [evs [T [L [Hd [Hc Hrun]]]]].
  pose proof (process_batch_flag env (u :: us) (fetched env)) as Hflag.
  set (rb := snd (process_batch env (u :: us) (fetched env))) in *.
  assert (Hno : ~ In (SetOffset z, ok) (trace rb)).
  { rewrite T. intros H. apply in_app_or in H as [H|H].
    - simpl in H. destruct H as [H|[H|[H|[]]]]; discriminate.
    - rewrite Forall_forall in L. specialize (L _ H). discriminate. }
  assert (Wb : writes (trace rb) = []).
  { rewrite T, writes_app, (in_loop_no_write evs L). reflexivity. }
  destruct Hrun as [[_ ->]|[Hval ->]]; [intros H; contradiction|].
  specialize (Hflag Hval). rewrite persist_run.
  destruct (data_changed rb) eqn:C.
  - destruct (returns env (trace rb) (SetData (bot_data rb))).
    + cbn [snd trace bot_data data_changed]. intros H.
      apply in_app_or in H as [H|H]; [contradiction|].
      destruct H as [H|[H|[]]]; [discriminate|]. injection H as <- <-.
      split.
      * exists (trace rb). split; [exact Wb|]. left. auto.
      * intros Hok. rewrite Hok, store_after_app.
        rewrite (store_after_no_write _ _ Wb). simpl. auto.
    + cbn [snd trace]. intros H.
      apply in_app_or in H as [H|H]; [contradiction|].
      destruct H as [H|[]]. discriminate.
  - cbn [snd trace bot_data data_changed]. intros H.
    apply in_app_or in H as [H|H]; [contradiction|].
    destruct H as [H|[]]. injection H as <- <-.
    destruct Hflag as [Hf|[Hf _]]; [congruence|].
    split.
    + exists (trace rb). split; [exact Wb|]. right. auto.
    + intros Hok. rewrite Hok, store_after_app.
      rewrite (store_after_no_write _ _ Wb). simpl.
      split; [|reflexivity]. rewrite Hf. reflexivity.
Qed.

(** C9. A run whose fetch raised, or whose fetch returned and gave no update,
    returns without a write: the trace holds no [SetData] and no [SetOffset],
    and the store is as it was, so that the next run computes the same
    offset. *)
Theorem no_updates_no_write env o :
  let run := process_updates env initial in
  In (GetUpdates o, false) (trace (snd run))
  \/ (In (GetUpdates o, true) (trace (snd run)) /\ new_updates env o = []) ->
  fst run = Val tt
  /\ writes (trace (snd run)) = []
  /\ store_after (trace (snd run)) (stored_data env, stored_offset env)
     = (stored_data env, stored_offset env).
Proof.
  intros run. subst run. rewrite process_updates_stages.
  destruct (returns env _ GetData);
    [|simpl; intros [[H|[]]|[[H|[]] _]]; discriminate].
  destruct (returns env _ GetOffset);
    [|simpl; intros [[H|[H|[]]]|[[H|[H|[]]] _]]; discriminate].
  destruct (returns env _ (GetUpdates _)); [|simpl; auto].
  destruct (new_updates env (next_offset env)) as [|u us] eqn:N;
    [simpl; auto|].
  intros H. exfalso.
  destruct (after_fetch env (u :: us)) as [evs [T [L [_ [_ Hrun]]]]].
  set (rb := snd (process_batch env (u :: us) (fetched env))) in *.
  assert (Hin : forall ok, In (GetUpdates o, ok) (trace (snd
                  ((process_batch env (u :: us) ;; persist env (u :: us))
                     (fetched env)))) ->
                ok = true /\ o = next_offset env).
  { intros ok Hin.
    assert (Hb : In (GetUpdates o, ok) (trace rb)).
    { destruct Hrun as [[_ E]|[_ E]]; rewrite E in Hin; [exact Hin|].
      rewrite persist_run in Hin.
      destruct (data_changed rb);
        [destruct (returns env (trace rb) (SetData (bot_data rb)))|];
        cbn [snd trace] in Hin; apply in_app_or in Hin as [Hin|Hin];
        try exact Hin; simpl in Hin; intuition discriminate. }
    rewrite T in Hb. apply in_app_or in Hb as [Hb|Hb].
    - simpl in Hb. destruct Hb as [Hb|[Hb|[Hb|[]]]]; try discriminate.
      injection Hb as <- <-. auto.
    - rewrite Forall_forall in L. specialize (L _ Hb). discriminate. }
  destruct H as [H|[H E]].
  - destruct (Hin _ H). discriminate.
  - destruct (Hin _ H) as [_ ->]. congruence.
Qed.




(** ** The dict stays well formed along a run *)

Lemma well_formed_change update (d d' : BotData) :
  change update d d' -> well_formed (codes d) -> well_formed (codes d').
Proof.
  intros [| |code _|cs H] W; simpl; auto.
  - now apply well_formed_set_used.
  - now apply well_formed_add_all.
Qed.

Lemma process_batch_well_formed env updates r :
  well_formed (codes (bot_data r)) ->
  well_formed (codes (bot_data (snd (process_batch env updates r)))).
Proof.
  revert r. induction updates as [|u us IH]; intros r W; [exact W|].
  rewrite process_batch_cons.
  pose proof (well_formed_change u _ _ (process_update_change env u r) W)
    as Hu.
  destruct (process_update env u r) as [[[]|] r1]; simpl in Hu; auto.
Qed.

(** What a run leaves in the store is well formed when what it found there
    was: the data are written by [save_data] only, after the loop. *)
Lemma stored_codes_well_formed env :
  well_formed (codes (loaded env)) ->
  forall d,
    fst (store_after (trace (snd (process_updates env initial)))
           (stored_data env, stored_offset env)) = Some d ->
    d = loaded env \/ well_formed (codes d).
Proof.
  intros W d. rewrite process_updates_stages.
  assert (Hs : forall d, stored_data env = Some d -> d = loaded env).
  { unfold loaded. intros d0 ->. reflexivity. }
  destruct (returns env _ GetData); [|simpl; auto].
  destruct (returns env _ GetOffset); [|simpl; auto].
  destruct (returns env _ (GetUpdates _)); [|simpl; auto].
  destruct (new_updates env (next_offset env)) as [|u us] eqn:N;
    [simpl; auto|].
  destruct (after_fetch env (u :: us)) as [evs [T [L [_ [_ Hrun]]]]].
  pose proof (process_batch_well_formed env (u :: us) (fetched env) W) as Wb.
  set (rb := snd (process_batch env (u :: us) (fetched env))) in *.
  assert (Nb : writes (trace rb) = []).
  { rewrite T, writes_app, (in_loop_no_write evs L). reflexivity. }
  destruct Hrun as [[_ ->]|[_ ->]].
  - cbn [snd]. rewrite (store_after_no_write _ _ Nb). simpl. auto.
  - rewrite persist_run.
    destruct (data_changed rb);
      [destruct (returns env (trace rb) (SetData (bot_data rb)))|];
      cbn [snd trace]; rewrite store_after_app,
        (store_after_no_write _ _ Nb).
    + destruct (returns env _ (SetOffset _)); simpl;
        intros [= <-]; auto.
    + simpl. auto.
    + destruct (returns env _ (SetOffset _)); simpl; auto.
Qed.

(** ** The candidates of [/add] *)

Lemma replace_from_skip (old new a rest : str) :
  replace_from old new (List.length a) (a ++ rest)
  = replace_from old new 0 rest.
Proof.
  induction a as [|c a IH]; simpl; [reflexivity | exact IH].
Qed.

Lemma replace_from_absent (old new s : str) :
  old <> [] -> ~ occurs old s -> replace_from old new 0 s = s.
Proof.
  intros Hne. induction s as [|c s IH]; intros Hno; [reflexivity|].
  cbn [replace_from].
  destruct (startswith (c :: s) old) eqn:E.
  - exfalso. apply Hno. apply startswith_app in E as [rest E].
    exists [], rest. exact E.
  - f_equal. apply IH. intros [a [b ->]]. apply Hno.
    exists (c :: a), b. reflexivity.
Qed.

(** The source and the specification agree on a text in which [/add] occurs
    at the start only. *)
Lemma candidates_one_occurrence (rest : str) :
  ~ occurs (py "/add") rest ->
  candidates (py "/add" ++ rest) = candidates_spec (py "/add" ++ rest).
Proof.
  intros H. unfold candidates, candidates_spec.
  replace (replace (py "/add" ++ rest) (py "/add") []) with rest;
    [reflexivity|].
  change (replace (py "/add" ++ rest) (py "/add") [])
    with (replace_from (py "/add") [] (List.length (py "add"))
            (py "add" ++ rest)).
  rewrite replace_from_skip, replace_from_absent; [reflexivity | | exact H].
  discriminate.
Qed.

(** C5. The source takes every occurrence of [/add] out of the text, not the
    leading command alone: for the text made of [/add], a line break and the
    code [https://t.me/addstickers/Pack], the candidate of the source is
    [https://t.mestickers/Pack], where the specification has the code as it
    was sent. *)
Theorem add_strips_inside_codes :
  candidates add_sticker_link = [py "https://t.mestickers/Pack"]
  /\ candidates_spec add_sticker_link = [py "https://t.me/addstickers/Pack"]
  /\ candidates add_sticker_link <> candidates_spec add_sticker_link.
Proof.
  split; [reflexivity|]. split; [reflexivity|]. discriminate.
Qed.

(** The code that ends up in the dict is the altered one. *)
Example add_sticker_link_stored :
  bot_data (snd (process_update quiet_env (update_in 1 5 add_sticker_link)
                   (bound_run [])))
  = {| config := config (bot_data (bound_run []));
       codes := [fresh (py "https://t.mestickers/Pack")] |}.
Proof. reflexivity. Qed.

(** ** The scenarios of the specification *)

Example scenario_set_topic :
  process_update quiet_env (update_in 1 5 (py "/set_topic")) initial
  = (Val tt,
     {| bot_data := {| config := {| target_chat_id := Some 1%Z;
                                    target_thread_id := Some 5%Z |};
                       codes := [] |};
        data_changed := true;
        trace := [(GetChatMember 1 7, true);
                  (MessageReply (message_in 5 (py "/set_topic")) TopicBound,
                   true)] |}).
Proof. reflexivity. Qed.

Example scenario_get :
  process_batch quiet_env
    [update_in 1 5 (py "/get"); update_in 2 5 (py "/get")]
    (bound_run [fresh (py "A1")])
  = (Val tt,
     {| bot_data := {| config := {| target_chat_id := Some 1%Z;
                                    target_thread_id := Some 5%Z |};
                       codes := [(py "A1", {| is_used := Some true |})] |};
        data_changed := true;
        trace := [(SendMessage (Some 1%Z) (Some 5%Z)
                     (CodeWithRemaining (py "A1") 0), true);
                  (MessageReply (message_in 5 (py "/get")) CodesExhausted,
                   true)] |}).
Proof. reflexivity. Qed.

Example scenario_add :
  process_update quiet_env (update_in 1 5 add_x_x_y) (bound_run [])
  = (Val tt,
     {| bot_data := {| config := {| target_chat_id := Some 1%Z;
                                    target_thread_id := Some 5%Z |};
                       codes := [fresh (py "X"); fresh (py "Y")] |};
        data_changed := true;
        trace := [(MessageReply (message_in 5 add_x_x_y) (AddedCodes 2 2),
                   true)] |}).
Proof. reflexivity. Qed.

(** The offset that is written is the [update_id] of the last update of the
    batch, in whatever order the batch is. *)
Example offset_is_the_last_update_id :
  let env := {| returns := fun _ _ => true;
                stored_data := None;
                stored_offset := None;
                new_updates := fun _ => [update_in 5 5 (py "hello");
                                         update_in 3 5 (py "hello")];
                member_status := fun _ _ _ => py "member" |} in
  offset_writes (trace (snd (process_updates env initial)))
  = [(SetOffset 3, true)].
Proof. reflexivity. Qed.

(** A reply that raises ends the run before any write: the store is as it
    was, and so is the offset. *)
Example reply_raises_nothing_written :
  let env := {| returns := fun _ c => negb (is_message c);
                stored_data := None;
                stored_offset := Some 41%Z;
                new_updates := new_updates busy_env;
                member_status := fun _ _ _ => py "administrator" |} in
  fst (process_updates env initial) = Exn
  /\ writes (trace (snd (process_updates env initial))) = [].
Proof. split; reflexivity. Qed.

(** A dict with the empty string as a key is not well formed, and [/get]
    does not hand that key out: [if code_to_send] takes it for [None]. *)
Example empty_key_is_not_handed_out :
  process_update quiet_env (update_in 1 5 (py "/get")) (bound_run [fresh []])
  = (Val tt,
     {| bot_data := bot_data (bound_run [fresh []]);
        data_changed := false;
        trace := [(MessageReply (message_in 5 (py "/get")) CodesExhausted,
                   true)] |}).
Proof. reflexivity. Qed.

(** ** [main] *)

(** Whatever [process_updates] did, [main] then closes the session of the
    bot and, when that returned, the connection to Redis; the closes write
    nothing to the store. *)
Lemma main_closes env :
  exists closes,
    trace (snd (main env initial))
    = trace (snd (process_updates env initial)) ++ closes
    /\ (closes = [(SessionClose, false)]
        \/ exists ok, closes = [(SessionClose, true); (RedisClose, ok)])
    /\ bot_data (snd (main env initial))
       = bot_data (snd (process_updates env initial)).
Proof.
  unfold main, try_finally, bind, call, await, record.
  destruct (process_updates env initial) as [res r]. cbn [snd].
  destruct (returns env (trace r) SessionClose); cbn [trace].
  - destruct (returns env _ RedisClose); cbn [snd trace bot_data];
      rewrite <- app_assoc; eexists; (split; [reflexivity|]);
      (split; [right; eexists; reflexivity | reflexivity]).
  - eexists. split; [reflexivity|]. split; [now left | reflexivity].
Qed.

(** ** The theorems at sample inputs *)

Lemma allocate_until_exhausted_witness :
  delivers quiet_env
  /\ well_formed (codes (bot_data (bound_run [fresh (py "A1")])))
  /\ exists r_n,
       process_batch quiet_env [update_in 1 5 (py "/get")]
         (bound_run [fresh (py "A1")]) = (Val tt, r_n)
       /\ trace r_n = [(SendMessage (Some 1%Z) (Some 5%Z)
                          (CodeWithRemaining (py "A1") 0), true)]
       /\ data_changed r_n = true
       /\ process_update quiet_env (update_in 2 5 (py "/get")) r_n =
            (Val tt,
             {| bot_data := bot_data r_n;
                data_changed := data_changed r_n;
                trace := trace r_n ++
                         [(MessageReply (message_in 5 (py "/get"))
                             CodesExhausted, true)] |}).
Proof.
  assert (D : delivers quiet_env) by (intros h c _; reflexivity).
  assert (W : well_formed (codes (bot_data (bound_run [fresh (py "A1")])))).
  { split; simpl; repeat constructor. intros []. }
  split; [exact D|]. split; [exact W|].
  destruct (allocate_until_exhausted quiet_env
              (bound_run [fresh (py "A1")])
              [update_in 1 5 (py "/get")] (update_in 2 5 (py "/get"))
              (message_in 5 (py "/get")) D W)
    as [r_n [P [T [_ [_ [_ [C L]]]]]]].
  - repeat constructor;
      exists (message_in 5 (py "/get")), (py "/get"); repeat split.
  - reflexivity.
  - reflexivity.
  - exists r_n. split; [exact P|]. split; [exact T|].
    split; [apply C; discriminate | exact L].
Defined.

Lemma other_topic_is_ignored_witness :
  (Some (chat_id (message_in 6 (py "/add X"))),
   message_thread_id (message_in 6 (py "/add X")))
  <> (target_chat_id (config (bot_data (bound_run []))),
      target_thread_id (config (bot_data (bound_run []))))
  /\ process_update quiet_env (update_in 1 6 (py "/add X")) (bound_run [])
     = (Val tt, bound_run []).
Proof.
  assert (H : (Some (chat_id (message_in 6 (py "/add X"))),
               message_thread_id (message_in 6 (py "/add X")))
              <> (target_chat_id (config (bot_data (bound_run []))),
                  target_thread_id (config (bot_data (bound_run [])))))
    by discriminate.
  split; [exact H|].
  apply (other_topic_is_ignored quiet_env (update_in 1 6 (py "/add X"))
           (message_in 6 (py "/add X")) (bound_run [])).
  - reflexivity.
  - intros txt [= <-]. reflexivity.
  - exact H.
Defined.


Lemma add_is_idempotent_witness :
  candidates add_x_x_y <> []
  /\ exists new r1,
       process_update quiet_env (update_in 1 5 add_x_x_y) (bound_run [])
       = (Val tt, r1)
       /\ NoDup new
       /\ bot_data r1 = {| config := config (bot_data (bound_run []));
                           codes := map fresh new |}
       /\ process_update quiet_env (update_in 2 5 add_x_x_y) r1 =
            (Val tt,
             {| bot_data := bot_data r1;
                data_changed := data_changed r1;
                trace := trace r1 ++
                         [(MessageReply (message_in 5 add_x_x_y)
                             NothingAdded, true)] |}).
Proof.
  assert (C : candidates add_x_x_y <> []) by discriminate.
  split; [exact C|].
  destruct (add_is_idempotent quiet_env (update_in 1 5 add_x_x_y)
              (message_in 5 add_x_x_y) add_x_x_y (bound_run []))
    as [new [r1 [P [N [_ [B [_ [_ S]]]]]]]].
  - reflexivity.
  - reflexivity.
  - reflexivity.
  - reflexivity.
  - exact C.
  - intros h c _. reflexivity.
  - exists new, r1. split; [exact P|]. split; [exact N|].
    split; [exact B|].
    apply (S (update_in 2 5 add_x_x_y) (message_in 5 add_x_x_y) add_x_x_y);
      reflexivity.
Defined.

Lemma set_topic_binds_witness :
  In (member_status quiet_env [] 1%Z 7%Z) administrators
  /\ process_update quiet_env (update_in 1 5 (py "/set_topic")) initial =
       (Val tt,
        {| bot_data := {| config := bound_to (message_in 5 (py "/set_topic"));
                          codes := [] |};
           data_changed := true;
           trace := [(GetChatMember 1 7, true);
                     (MessageReply (message_in 5 (py "/set_topic"))
                        TopicBound, true)] |}).
Proof.
  assert (A : In (member_status quiet_env [] 1%Z 7%Z) administrators)
    by (left; reflexivity).
  split; [exact A|].
  apply (set_topic_binds quiet_env (update_in 1 5 (py "/set_topic"))
           (message_in 5 (py "/set_topic")) (py "/set_topic") 7%Z initial).
  - reflexivity.
  - reflexivity.
  - reflexivity.
  - reflexivity.
  - reflexivity.
  - reflexivity.
  - exact A.
  - intros h c _. reflexivity.
Defined.

Lemma set_topic_refused_witness :
  ~ In (member_status member_env [] 1%Z 7%Z) administrators
  /\ bot_data (snd (process_update member_env
                      (update_in 1 5 (py "/set_topic")) initial))
     = bot_data initial
  /\ data_changed (snd (process_update member_env
                          (update_in 1 5 (py "/set_topic")) initial))
     = data_changed initial.
Proof.
  assert (A : ~ In (member_status member_env [] 1%Z 7%Z) administrators).
  { intros [H|[H|[]]]; discriminate. }
  split; [exact A|].
  destruct (set_topic_refused member_env (update_in 1 5 (py "/set_topic"))
              (message_in 5 (py "/set_topic")) (py "/set_topic") initial)
    as [B [C _]].
  - reflexivity.
  - reflexivity.
  - reflexivity.
  - right. exact A.
  - split; [exact B | exact C].
Defined.

Lemma no_updates_no_write_witness :
  In (GetUpdates (Some 42%Z), false)
     (trace (snd (process_updates offline_env initial)))
  /\ fst (process_updates offline_env initial) = Val tt
  /\ writes (trace (snd (process_updates offline_env initial))) = [].
Proof.
  assert (H : In (GetUpdates (Some 42%Z), false)
                 (trace (snd (process_updates offline_env initial)))).
  { right. right. left. reflexivity. }
  split; [exact H|].
  destruct (no_updates_no_write offline_env (Some 42%Z) (or_introl H))
    as [V [W _]].
  split; [exact V | exact W].
Defined.

Lemma data_written_before_offset_witness :
  In (SetOffset 43, true) (trace (snd (process_updates busy_env initial)))
  /\ exists before,
       writes before = []
       /\ trace (snd (process_updates busy_env initial))
          = before ++ [(SetData (bot_data (snd (process_updates busy_env
                                                  initial))), true);
                       (SetOffset 43, true)].
Proof.
  assert (H : In (SetOffset 43, true)
                 (trace (snd (process_updates busy_env initial)))).
  { vm_compute. do 7 right. left. reflexivity. }
  split; [exact H|].
  destruct (data_written_before_offset busy_env 43%Z true H)
    as [[before [W [[_ T]|[C _]]]] _].
  - exists before. split; [exact W | exact T].
  - discriminate C.
Defined.

(** * Further properties *)

(** ** Updates that are passed over *)

Lemma passed_over_update env update r :
  passed_over (config (bot_data r)) update = true ->
  process_update env update r = (Val tt, r).
Proof.
  unfold passed_over, process_update. intros H.
  destruct (message update) as [msg|]; [|reflexivity].
  destruct (text msg) as [[|c txt]|]; try reflexivity.
  apply andb_true_iff in H as [Hs H]. apply negb_true_iff in Hs.
  rewrite Hs. unfold bind, get_bot_data, ret.
  destruct (is_correct_topic (config (bot_data r)) msg); [|reflexivity].
  cbn [negb orb] in H. apply andb_true_iff in H as [Hg Ha].
  apply negb_true_iff in Hg, Ha. rewrite Hg, Ha. reflexivity.
Qed.

Lemma passed_over_batch env updates r :
  forallb (passed_over (config (bot_data r))) updates = true ->
  process_batch env updates r = (Val tt, r).
Proof.
  induction updates as [|u us IH]; intros H; [reflexivity|].
  simpl in H. apply andb_true_iff in H as [Hu Hus].
  rewrite process_batch_cons, (passed_over_update env u r Hu). auto.
Qed.

(** X3. A run that fetches a batch in which every update is passed over (no
    message, no text, or a text that is not [/set_topic] and is either
    outside the topic of the loaded config or starts with neither [/get] nor
    [/add]), the store calls and the fetch returning: the loop changes
    nothing and makes no call, and the run makes exactly four calls, the two
    reads, the fetch, and the write of the offset to the last [update_id].
    It sends nothing and does not write the data. *)
Theorem passed_over_batch_moves_offset_only env :
  store_and_fetch_return env ->
  new_updates env (next_offset env) <> [] ->
  forallb (passed_over (config (loaded env)))
    (new_updates env (next_offset env)) = true ->
  process_batch env (new_updates env (next_offset env)) (fetched env)
  = (Val tt, fetched env)
  /\ process_updates env initial =
       (Val tt,
        {| bot_data := loaded env;
           data_changed := false;
           trace := [(GetData, true); (GetOffset, true);
                     (GetUpdates (next_offset env), true);
                     (SetOffset
                        (last_update_id (new_updates env (next_offset env))),
                      true)] |}).
Proof.
  intros R Hne Hp.
  pose proof (passed_over_batch env _ (fetched env) Hp) as B.
  split; [exact B|].
  rewrite process_updates_stages.
  rewrite !R by exact I.
  destruct (new_updates env (next_offset env)) as [|u us] eqn:N;
    [congruence|].
  unfold bind. rewrite B.
  rewrite persist_run. cbn [fetched data_changed trace bot_data].
  rewrite R by exact I. reflexivity.
Qed.

(** ** [/set_topic] and the messages that follow it *)

(** The turn of a [/set_topic] whose sender the lookup reports as
    administrator or creator, up to the test on the topic. *)
Lemma set_topic_step env update msg txt user r :
  message update = Some msg ->
  text msg = Some txt ->
  startswith txt (py "/set_topic") = true ->
  from_user msg = Some user ->
  returns env (trace r) (GetChatMember (chat_id msg) user) = true ->
  In (member_status env (trace r) (chat_id msg) user) administrators ->
  delivers env ->
  process_update env update r =
  match is_topic_message msg with
  | Some true =>
      (Val tt,
       {| bot_data := {| config := bound_to msg;
                         codes := codes (bot_data r) |};
          data_changed := true;
          trace := trace r ++ [(GetChatMember (chat_id msg) user, true);
                               (MessageReply msg TopicBound, true)] |})
  | _ =>
      (Val tt,
       {| bot_data := bot_data r;
          data_changed := data_changed r;
          trace := trace r ++ [(GetChatMember (chat_id msg) user, true);
                               (MessageReply msg UseInsideTopic, true)] |})
  end.
Proof.
  intros Hm Ht Hs Hu Hret Hadm D.
  destruct (set_topic_prefix txt Hs) as [c [rest ->]].
  apply is_administrator in Hadm.
  unfold_run. rewrite Hm, Ht, Hs, Hu, Hret. step.
  rewrite Hadm. step.
  destruct (is_topic_message msg) as [[|]|]; step;
    rewrite delivers_reply by assumption; step;
    rewrite <- app_assoc; reflexivity.
Qed.

(** X2. A [/set_topic] from an administrator that is not a topic message
    ([is_topic_message] is false or absent) binds nothing: the sender is
    told to use the command inside a topic, and [bot_data] and
    [data_changed] stay as they were. *)
Theorem set_topic_outside_a_topic env update msg txt user r :
  message update = Some msg ->
  text msg = Some txt ->
  startswith txt (py "/set_topic") = true ->
  is_topic_message msg <> Some true ->
  from_user msg = Some user ->
  returns env (trace r) (GetChatMember (chat_id msg) user) = true ->
  In (member_status env (trace r) (chat_id msg) user) administrators ->
  delivers env ->
  process_update env update r =
    (Val tt,
     {| bot_data := bot_data r;
        data_changed := data_changed r;
        trace := trace r ++ [(GetChatMember (chat_id msg) user, true);
                             (MessageReply msg UseInsideTopic, true)] |}).
Proof.
  intros Hm Ht Hs Htopic Hu Hret Hadm D.
  rewrite (set_topic_step env update msg txt user r Hm Ht Hs Hu Hret Hadm D).
  destruct (is_topic_message msg) as [[|]|]; [congruence | |]; reflexivity.
Qed.

(** X10. After a [/set_topic] that binds, in the same batch: a message that
    is not [/set_topic] and comes from another chat or thread than the one
    just bound is passed over, also when it comes from the topic that was
    bound before; and a [/get] from the topic just bound is served from the
    codes, which the binding left alone. *)
Theorem rebinding_moves_the_topic env binding msg txt user r :
  message binding = Some msg ->
  text msg = Some txt ->
  startswith txt (py "/set_topic") = true ->
  is_topic_message msg = Some true ->
  from_user msg = Some user ->
  returns env (trace r) (GetChatMember (chat_id msg) user) = true ->
  In (member_status env (trace r) (chat_id msg) user) administrators ->
  delivers env ->
  well_formed (codes (bot_data r)) ->
  (forall other msg',
      message other = Some msg' ->
      (forall txt', text msg' = Some txt' ->
                    startswith txt' (py "/set_topic") = false) ->
      (Some (chat_id msg'), message_thread_id msg')
      <> (Some (chat_id msg), message_thread_id msg) ->
      process_batch env [binding; other] r = process_update env binding r)
  /\ (forall request code others,
        allocate_request (bound_to msg) request ->
        unused_keys (codes (bot_data r)) = code :: others ->
        process_batch env [binding; request] r =
          (Val tt,
           {| bot_data := {| config := bound_to msg;
                             codes := set_used (codes (bot_data r)) code |};
              data_changed := true;
              trace := trace r ++
                       [(GetChatMember (chat_id msg) user, true);
                        (MessageReply msg TopicBound, true);
                        (SendMessage (Some (chat_id msg))
                           (message_thread_id msg)
                           (CodeWithRemaining code (List.length others)),
                         true)] |})).
Proof.
  intros Hm Ht Hs Htopic Hu Hret Hadm D W.
  pose proof (set_topic_step env binding msg txt user r Hm Ht Hs Hu Hret
                Hadm D) as B.
  rewrite Htopic in B.
  split.
  - intros other msg' Hm' Hs' Hne.
    rewrite process_batch_cons, B. cbn [process_batch]. unfold bind at 1.
    assert (P : passed_over (bound_to msg) other = true).
    { unfold passed_over. rewrite Hm'.
      destruct (text msg') as [[|c t]|]; try reflexivity.
      rewrite (Hs' _ eq_refl).
      destruct (is_correct_topic (bound_to msg) msg') eqn:E; [|reflexivity].
      apply is_correct_topic_eq in E. contradiction. }
    rewrite passed_over_update by exact P. reflexivity.
  - intros request code others Hreq Hk.
    rewrite process_batch_cons, B. cbn [process_batch]. unfold bind at 1.
    rewrite get_step; [|exact D|exact W|exact Hreq].
    cbn [bot_data codes config data_changed trace]. rewrite Hk.
    unfold ret. cbn [handed_out bound_to target_chat_id target_thread_id].
    rewrite <- app_assoc, Nat.add_0_l. reflexivity.
Qed.

(** ** The text of [/add] *)

Lemma lstrip_head (s : str) (c : char) (t : str) :
  lstrip s = c :: t -> isspace c = false.
Proof.
  induction s as [|x s IH]; simpl; [discriminate|].
  destruct (isspace x) eqn:E; [exact IH|].
  intros [= <- <-]. exact E.
Qed.

Lemma lstrip_suffix (s : str) :
  exists a, s = a ++ lstrip s /\ Forall (fun c => isspace c = true) a.
Proof.
  induction s as [|x s [a [E F]]]; simpl.
  - exists []. split; [reflexivity | constructor].
  - destruct (isspace x) eqn:Ex.
    + exists (x :: a). split; [simpl; congruence | now constructor].
    + exists []. split; [reflexivity | constructor].
Qed.

Lemma lstrip_blank (s : str) :
  Forall (fun c => isspace c = true) s -> lstrip s = [].
Proof.
  induction 1 as [|x s H _ IH]; simpl; [reflexivity|]. now rewrite H.
Qed.

(** [strip] takes white space off both ends and nothing else. *)
Lemma strip_spec (s : str) :
  exists a b,
    s = a ++ strip s ++ b
    /\ Forall (fun c => isspace c = true) a
    /\ Forall (fun c => isspace c = true) b
    /\ (strip s = []
        \/ isspace (hd 0%N (strip s)) = false
           /\ isspace (last (strip s) 0%N) = false).
Proof.
  unfold strip, rstrip.
  destruct (lstrip_suffix s) as [a [Ea Fa]].
  destruct (lstrip_suffix (rev (lstrip s))) as [b [Eb Fb]].
  set (m := lstrip s) in *. set (n := lstrip (rev m)) in *.
  assert (Em : m = rev n ++ rev b).
  { rewrite <- rev_app_distr, <- Eb. symmetry. apply rev_involutive. }
  exists a, (rev b). split; [|split; [|split]].
  - rewrite <- Em. exact Ea.
  - exact Fa.
  - apply Forall_rev. exact Fb.
  - destruct n as [|c t] eqn:En; [now left|]. right.
    assert (Hc : isspace c = false) by (apply (lstrip_head (rev m) c t En)).
    split.
    + destruct m as [|c' t'] eqn:Hm.
      * destruct (rev (c :: t)) eqn:R; [|discriminate Em].
        apply (f_equal (@rev char)) in R. rewrite rev_involutive in R.
        discriminate R.
      * pose proof (lstrip_head s c' t' Hm) as Hc'.
        destruct (rev (c :: t)) as [|y ys] eqn:R.
        -- apply (f_equal (@rev char)) in R. rewrite rev_involutive in R.
           discriminate R.
        -- simpl in Em. injection Em as <- _. exact Hc'.
    + simpl. rewrite last_last. exact Hc.
Qed.

Lemma strip_incl (s : str) (c : char) : In c (strip s) -> In c s.
Proof.
  destruct (strip_spec s) as [a [b [E _]]]. intros H.
  rewrite E. apply in_or_app. right. apply in_or_app. now left.
Qed.

Lemma strip_blank (s : str) :
  Forall (fun c => isspace c = true) s -> strip s = [].
Proof.
  intros H. unfold strip, rstrip. now rewrite (lstrip_blank s H).
Qed.

(** No line of [split] holds the separator. *)
Lemma split_no_sep (s : str) (sep : char) (line : str) :
  In line (split s sep) -> ~ In sep line.
Proof.
  revert line. induction s as [|c s IH]; simpl; intros line.
  - intros [<-|[]] [].
  - destruct (N.eqb c sep) eqn:E.
    + intros [<-|H]; [intros [] | now apply IH].
    + destruct (split s sep) as [|l ls].
      * intros [<-|[]] [->|[]]. now rewrite N.eqb_refl in E.
      * intros [<-|H].
        -- intros [->|H']; [now rewrite N.eqb_refl in E|].
           apply (IH l); [now left | exact H'].
        -- apply IH. now right.
Qed.

(** X5. Every candidate that [/add] takes from a text is clean: it is not
    empty, it has no white space at its start or at its end, and it holds no
    line break. *)
Theorem candidates_are_clean (txt code : str) :
  In code (candidates txt) -> clean code.
Proof.
  unfold candidates. rewrite in_map_iff.
  intros [line [<- H]]. apply filter_In in H as [Hl Ht].
  unfold clean. split; [|split; [|split]].
  - intros E. rewrite E in Ht. discriminate.
  - destruct (strip_spec line) as [_ [_ [_ [_ [_ [E|[H _]]]]]]];
      [rewrite E in Ht; discriminate | exact H].
  - destruct (strip_spec line) as [_ [_ [_ [_ [_ [E|[_ H]]]]]]];
      [rewrite E in Ht; discriminate | exact H].
  - intros H. apply strip_incl in H. exact (split_no_sep _ _ _ Hl H).
Qed.

Lemma blank_has_no_command (ws : str) :
  Forall (fun c => isspace c = true) ws -> ~ occurs (py "/add") ws.
Proof.
  intros H [a [b E]]. rewrite Forall_forall in H.
  assert (S : isspace 47%N = true).
  { apply H. rewrite E. apply in_or_app. right. left. reflexivity. }
  discriminate S.
Qed.

Lemma candidates_blank (ws : str) :
  Forall (fun c => isspace c = true) ws -> candidates (py "/add" ++ ws) = [].
Proof.
  intros H. unfold candidates.
  change (replace (py "/add" ++ ws) (py "/add") [])
    with (replace_from (py "/add") [] (List.length (py "add"))
            (py "add" ++ ws)).
  rewrite replace_from_skip, replace_from_absent;
    [|discriminate|now apply blank_has_no_command].
  rewrite (strip_blank ws H). reflexivity.
Qed.

(** X4. An [/add] in the topic whose text, after the command, is empty or
    only white space and line breaks is answered with the usage notice, and
    changes neither [bot_data] nor [data_changed]. *)
Theorem add_of_nothing_gets_usage env update msg ws r :
  message update = Some msg ->
  text msg = Some (py "/add" ++ ws) ->
  Forall (fun c => isspace c = true) ws ->
  (Some (chat_id msg), message_thread_id msg)
  = (target_chat_id (config (bot_data r)),
     target_thread_id (config (bot_data r))) ->
  delivers env ->
  process_update env update r
  = (Val tt,
     {| bot_data := bot_data r;
        data_changed := data_changed r;
        trace := trace r ++ [(MessageReply msg AddUsage, true)] |}).
Proof.
  intros Hm Ht Hw Hin D.
  apply (add_without_candidates env update msg (py "/add" ++ ws) r);
    auto using candidates_blank.
Qed.

(** ** The order in which codes are handed out *)

Lemma contains_keys (codes : Codes) (code : str) :
  contains codes code = existsb (fun k => eqb k code) (keys codes).
Proof.
  unfold contains, keys. induction codes as [|[k v] rest IH]; simpl;
    [reflexivity | now rewrite IH].
Qed.

Lemma fold_add_code_new (cs : list str) (codes : Codes) (n : nat) :
  fold_left add_code cs (codes, n)
  = (codes ++ map fresh (new_codes cs (keys codes)),
     n + List.length (new_codes cs (keys codes))).
Proof.
  revert codes n. induction cs as [|c cs IH]; intros codes n; simpl.
  - now rewrite app_nil_r, Nat.add_0_r.
  - unfold add_code at 2. cbn [fst snd]. rewrite contains_keys.
    destruct (existsb (fun k => eqb k c) (keys codes)).
    + apply IH.
    + eapply eq_trans; [apply IH|].
      rewrite keys_app. cbn [keys map fst app length].
      rewrite <- app_assoc. simpl. f_equal. lia.
Qed.

Lemma add_all_new (cs : list str) (codes : Codes) :
  add_all cs codes
  = (codes ++ map fresh (new_codes cs (keys codes)),
     List.length (new_codes cs (keys codes))).
Proof. exact (fold_add_code_new cs codes 0). Qed.

(** X6. Codes are handed out first in, first out.  After an [/add] in the
    topic, as many [/get] as there are unused codes receive, in this order,
    the codes that were unused before the [/add], then the candidates that
    the [/add] entered, each at the place of its first occurrence in the
    text; the last of these messages says that no code is left. *)
Theorem codes_go_out_in_the_order_added env adding msg txt requests r :
  message adding = Some msg ->
  text msg = Some txt ->
  startswith txt (py "/add") = true ->
  (Some (chat_id msg), message_thread_id msg)
  = (target_chat_id (config (bot_data r)),
     target_thread_id (config (bot_data r))) ->
  delivers env ->
  well_formed (codes (bot_data r)) ->
  Forall (allocate_request (config (bot_data r))) requests ->
  List.length requests
  = List.length (unused_keys (codes (bot_data r))
                 ++ new_codes (candidates txt) (keys (codes (bot_data r)))) ->
  exists answer r',
    process_batch env (adding :: requests) r = (Val tt, r')
    /\ trace r' =
         trace r ++ (MessageReply msg answer, true)
         :: handed_out (config (bot_data r))
              (unused_keys (codes (bot_data r))
               ++ new_codes (candidates txt) (keys (codes (bot_data r)))) 0
    /\ unused_keys (codes (bot_data r')) = [].
Proof.
  intros Hm Ht Hs Hin D W F L.
  set (new := new_codes (candidates txt) (keys (codes (bot_data r)))) in *.
  assert (A : exists answer r1,
             process_update env adding r = (Val tt, r1)
             /\ trace r1 = trace r ++ [(MessageReply msg answer, true)]
             /\ config (bot_data r1) = config (bot_data r)
             /\ well_formed (codes (bot_data r1))
             /\ unused_keys (codes (bot_data r1))
                = unused_keys (codes (bot_data r)) ++ new).
  { destruct (candidates txt) as [|c0 cs] eqn:C.
    - exists AddUsage, (record (MessageReply msg AddUsage, true) r).
      split; [now apply (add_without_candidates env adding msg txt r)|].
      subst new. simpl. rewrite app_nil_r. auto.
    - pose proof (add_step env adding msg txt r Hm Ht Hs Hin) as P.
      rewrite C, add_all_new in P. fold new in P.
      eexists _, _. split; [apply P; [discriminate | exact D]|].
      cbn [trace bot_data config codes].
      split; [reflexivity|]. split; [reflexivity|]. split.
      + pose proof (well_formed_add_all (c0 :: cs) (codes (bot_data r))) as
          Wa.
        rewrite add_all_new in Wa. apply Wa; [|exact W].
        intros c Hc. apply (candidates_truthy txt). now rewrite C.
      + now rewrite unused_keys_app, unused_keys_fresh. }
  destruct A as [answer [r1 [P [T [C [W1 U]]]]]].
  destruct (get_batch env D requests r1
              (unused_keys (codes (bot_data r)) ++ new) [])
    as [r' [P' [_ [_ [U' [T' _]]]]]].
  - exact W1.
  - now rewrite C.
  - now rewrite app_nil_r.
  - now symmetry.
  - exists answer, r'. split; [|split].
    + rewrite process_batch_cons, P. exact P'.
    + rewrite T', T, C, <- app_assoc. reflexivity.
    + exact U'.
Qed.

(** ** What a run leaves in the store *)

(** The run after a fetch that gave the updates [u :: us], case by case. *)
Lemma after_fetch_cases env u us :
  let rb := snd (process_batch env (u :: us) (fetched env)) in
  let z := last_update_id (u :: us) in
  let run := (process_batch env (u :: us) ;; persist env (u :: us))
               (fetched env) in
  writes (trace rb) = []
  /\ (run = (Exn, rb)
      \/ (data_changed rb = false /\ bot_data rb = loaded env)
         /\ (exists ok : bool,
               run = (if ok then Val tt else Exn,
                      {| bot_data := bot_data rb;
                         data_changed := false;
                         trace := trace rb ++ [(SetOffset z, ok)] |}))
      \/ data_changed rb = true
         /\ run = (Exn,
                   {| bot_data := bot_data rb;
                      data_changed := true;
                      trace := trace rb ++ [(SetData (bot_data rb), false)] |})
      \/ data_changed rb = true
         /\ (exists ok : bool,
               run = (if ok then Val tt else Exn,
                      {| bot_data := bot_data rb;
                         data_changed := true;
                         trace := trace rb ++ [(SetData (bot_data rb), true);
                                               (SetOffset z, ok)] |}))).
Proof.
  intros rb z run. subst rb z run.
  destruct (after_fetch env (u :: us)) as [evs [T [L [_ [_ Hrun]]]]].
  pose proof (process_batch_flag env (u :: us) (fetched env)) as Hflag.
  set (rb := snd (process_batch env (u :: us) (fetched env))) in *.
  split.
  { rewrite T, writes_app, (in_loop_no_write evs L). reflexivity. }
  destruct Hrun as [[_ ->]|[Hval ->]]; [now left|]. right.
  specialize (Hflag Hval).
  rewrite persist_run. destruct (data_changed rb) eqn:C.
  - destruct (returns env (trace rb) (SetData (bot_data rb))).
    + right. right. split; [reflexivity|]. eexists. reflexivity.
    + right. left. split; reflexivity.
  - left. destruct Hflag as [Hf|[Hf _]]; [discriminate|].
    split; [split; [reflexivity | exact Hf]|]. eexists. reflexivity.
Qed.

(** X7. A run that ends with an exception, wherever it was raised, leaves
    the offset of the store as it was: the updates it fetched will be
    fetched again. *)
Theorem raising_run_keeps_the_offset env :
  fst (process_updates env initial) = Exn ->
  snd (store_after (trace (snd (process_updates env initial)))
         (stored_data env, stored_offset env))
  = stored_offset env.
Proof.
  rewrite process_updates_stages.
  destruct (returns env _ GetData); [|reflexivity].
  destruct (returns env _ GetOffset); [|reflexivity].
  destruct (returns env _ (GetUpdates _)); [|reflexivity].
  destruct (new_updates env (next_offset env)) as [|u us] eqn:N;
    [reflexivity|].
  destruct (after_fetch_cases env u us) as [Wb H].
  set (rb := snd (process_batch env (u :: us) (fetched env))) in *.
  destruct H as [->|[[_ [ok ->]]|[[_ ->]|[_ [ok ->]]]]];
    cbn [fst snd trace]; intros E;
    rewrite ?store_after_app, (store_after_no_write _ _ Wb);
    try reflexivity; destruct ok; try discriminate; reflexivity.
Qed.

(** X8. The writes of a run, in every environment, are none, or the offset
    alone, or the data alone (when that write raised), or the data and then
    the offset: never two writes of one key, never the offset before the
    data, and the data written are those the run ends with. *)
Theorem a_run_writes_data_then_offset env :
  let r := snd (process_updates env initial) in
  let z := last_update_id (new_updates env (next_offset env)) in
  writes (trace r) = []
  \/ (exists ok, writes (trace r) = [(SetOffset z, ok)])
  \/ writes (trace r) = [(SetData (bot_data r), false)]
  \/ (exists ok, writes (trace r) = [(SetData (bot_data r), true);
                                     (SetOffset z, ok)]).
Proof.
  intros r z. subst r z. rewrite process_updates_stages.
  destruct (returns env _ GetData); [|now left].
  destruct (returns env _ GetOffset); [|now left].
  destruct (returns env _ (GetUpdates _)); [|now left].
  destruct (new_updates env (next_offset env)) as [|u us] eqn:N;
    [now left|].
  destruct (after_fetch_cases env u us) as [Wb H].
  set (rb := snd (process_batch env (u :: us) (fetched env))) in *.
  destruct H as [->|[[_ [ok ->]]|[[_ ->]|[_ [ok ->]]]]];
    cbn [snd trace bot_data]; rewrite ?writes_app, ?Wb; simpl; eauto.
Qed.

(** X13. When the codes that a run loads have distinct keys, none of them
    empty, so have the codes of every blob it writes: [/add] enters a
    candidate once and never an empty one. *)
Theorem written_codes_are_well_formed env d ok :
  well_formed (codes (loaded env)) ->
  In (SetData d, ok) (trace (snd (process_updates env initial))) ->
  well_formed (codes d).
Proof.
  intros W. rewrite process_updates_stages.
  destruct (returns env _ GetData);
    [|simpl; intros [H|[]]; discriminate].
  destruct (returns env _ GetOffset);
    [|simpl; intros [H|[H|[]]]; discriminate].
  destruct (returns env _ (GetUpdates _));
    [|simpl; intros [H|[H|[H|[]]]]; discriminate].
  destruct (new_updates env (next_offset env)) as [|u us] eqn:N;
    [simpl; intros [H|[H|[H|[]]]]; discriminate|].
  destruct (after_fetch_cases env u us) as [Wb H].
  pose proof (process_batch_well_formed env (u :: us) (fetched env) W) as Wf.
  set (rb := snd (process_batch env (u :: us) (fetched env))) in *.
  assert (Hno : ~ In (SetData d, ok) (trace rb)).
  { intros Hin. assert (Hw : In (SetData d, ok) (writes (trace rb))).
    { apply filter_In. split; [exact Hin | reflexivity]. }
    rewrite Wb in Hw. exact Hw. }
  destruct H as [->|[[_ [o ->]]|[[_ ->]|[_ [o ->]]]]];
    cbn [snd trace]; intros Hin; try contradiction;
    apply in_app_or in Hin as [Hin|Hin]; try contradiction.
  - destruct Hin as [Hin|[]]. discriminate.
  - destruct Hin as [Hin|[]]. injection Hin as <- _. exact Wf.
  - destruct Hin as [Hin|[Hin|[]]]; [|discriminate].
    injection Hin as <- _. exact Wf.
Qed.

(** X1. What a run saves is what the next run starts from.  When a run
    returns normally after a fetch that gave updates, a run that finds the
    store as the first one left it loads the data the first one ended with,
    and asks for the updates after the last one of the batch: its offset is
    that [update_id] plus one. *)
Theorem next_run_resumes env env' :
  fst (process_updates env initial) = Val tt ->
  In (GetUpdates (next_offset env), true)
     (trace (snd (process_updates env initial))) ->
  new_updates env (next_offset env) <> [] ->
  (stored_data env', stored_offset env')
  = store_after (trace (snd (process_updates env initial)))
      (stored_data env, stored_offset env) ->
  loaded env' = bot_data (snd (process_updates env initial))
  /\ next_offset env'
     = Some (last_update_id (new_updates env (next_offset env)) + 1)%Z.
Proof.
  unfold loaded at 1, next_offset at 3.
  rewrite process_updates_stages.
  destruct (returns env _ GetData); [|discriminate].
  destruct (returns env _ GetOffset); [|discriminate].
  destruct (returns env _ (GetUpdates _));
    [|simpl; intros _ [H|[H|[H|[]]]]; discriminate].
  destruct (new_updates env (next_offset env)) as [|u us] eqn:N;
    [congruence|].
  destruct (after_fetch_cases env u us) as [Wb H].
  set (rb := snd (process_batch env (u :: us) (fetched env))) in *.
  destruct H as [->|[[[_ Hl] [ok ->]]|[[_ ->]|[_ [ok ->]]]]];
    cbn [fst snd trace bot_data]; try discriminate;
    (destruct ok; [|discriminate]); intros _ _ _;
    rewrite store_after_app, (store_after_no_write _ _ Wb);
    cbn [store_after fst snd]; intros [= -> ->]; cbn [option_map];
    (split; [|reflexivity]).
  - rewrite Hl. reflexivity.
  - reflexivity.
Qed.

(** ** [main] and its connections *)

(** X9. [main] closes what it uses, whatever [process_updates] did, also
    when it raised: it calls [bot.session.close()], and then
    [redis_client.close()] unless the first close raised, in which case the
    connection to Redis is not closed.  The closes write nothing, [main]
    ends as [process_updates] did when both closes return, and with an
    exception when one of them raises. *)
Theorem main_closes_after_any_run env :
  exists closes,
    trace (snd (main env initial))
    = trace (snd (process_updates env initial)) ++ closes
    /\ writes closes = []
    /\ (closes = [(SessionClose, false)]
        /\ fst (main env initial) = Exn
        \/ closes = [(SessionClose, true); (RedisClose, false)]
           /\ fst (main env initial) = Exn
        \/ closes = [(SessionClose, true); (RedisClose, true)]
           /\ fst (main env initial) = fst (process_updates env initial)).
Proof.
  unfold main, try_finally, bind, call, await, record.
  destruct (process_updates env initial) as [res r]. cbn [fst snd].
  destruct (returns env (trace r) SessionClose); cbn [trace].
  - destruct (returns env _ RedisClose); cbn [fst snd trace];
      rewrite <- app_assoc; eexists; (split; [reflexivity|]);
      (split; [reflexivity|]); auto.
  - eexists. split; [reflexivity|]. split; [reflexivity|]. auto.
Qed.

(** ** More on what the store keeps *)

Lemma process_batch_keeps env updates r :
  kept (codes (bot_data r))
       (codes (bot_data (snd (process_batch env updates r)))).
Proof.
  revert r. induction updates as [|u us IH]; intros r; [apply kept_refl|].
  rewrite process_batch_cons.
  pose proof (kept_change u _ _ (process_update_change env u r)) as Hu.
  destruct (process_update env u r) as [[[]|] r1]; simpl in Hu;
    [eapply kept_trans; [exact Hu | apply IH] | exact Hu].
Qed.

(** X12. No run takes a code out of the store or makes a used code unused
    there, in any environment and however the run ends: the data that the
    next run would load have every key of the data this run loaded, and
    every code that was used is used. *)
Theorem store_keeps_codes env :
  kept (codes (loaded env))
       (codes match fst (store_after
                           (trace (snd (process_updates env initial)))
                           (stored_data env, stored_offset env))
              with
              | Some d => d
              | None => default_data
              end).
Proof.
  rewrite process_updates_stages. fold (loaded env).
  destruct (returns env _ GetData); [|apply kept_refl].
  destruct (returns env _ GetOffset); [|apply kept_refl].
  destruct (returns env _ (GetUpdates _)); [|apply kept_refl].
  destruct (new_updates env (next_offset env)) as [|u us] eqn:N;
    [apply kept_refl|].
  destruct (after_fetch_cases env u us) as [Wb H].
  pose proof (process_batch_keeps env (u :: us) (fetched env)) as K.
  set (rb := snd (process_batch env (u :: us) (fetched env))) in *.
  destruct H as [->|[[_ [ok ->]]|[[_ ->]|[_ [ok ->]]]]];
    cbn [snd trace];
    rewrite ?store_after_app, (store_after_no_write _ _ Wb);
    try apply kept_refl; destruct ok; solve [apply kept_refl | exact K].
Qed.

(** ** The refusals of [/set_topic] *)

(** X11. The [except] clause of [/set_topic] also catches a raise of the
    reply made inside the [try] block: when the sender is not an
    administrator and the reply that says so raises, the bot sends the other
    refusal, the one meant for a failed lookup; [bot_data] and
    [data_changed] stay as they were, and the turn completes if this second
    reply returns. *)
Theorem refusal_falls_back env update msg txt user r :
  message update = Some msg ->
  text msg = Some txt ->
  startswith txt (py "/set_topic") = true ->
  from_user msg = Some user ->
  returns env (trace r) (GetChatMember (chat_id msg) user) = true ->
  ~ In (member_status env (trace r) (chat_id msg) user) administrators ->
  returns env (trace r ++ [(GetChatMember (chat_id msg) user, true)])
    (MessageReply msg OnlyAdministrator) = false ->
  exists ok : bool,
    process_update env update r =
      (if ok then Val tt else Exn,
       {| bot_data := bot_data r;
          data_changed := data_changed r;
          trace := trace r ++
                   [(GetChatMember (chat_id msg) user, true);
                    (MessageReply msg OnlyAdministrator, false);
                    (MessageReply msg BotMustBeAdministrator, ok)] |}).
Proof.
  intros Hm Ht Hs Hu Hret Hadm Hraise.
  destruct (set_topic_prefix txt Hs) as [c [rest ->]].
  rewrite <- is_administrator in Hadm. apply not_true_is_false in Hadm.
  unfold_run. rewrite Hm, Ht, Hs, Hu, Hret. step.
  rewrite Hadm. step.
  destruct (returns env _ (MessageReply msg OnlyAdministrator)) eqn:R1;
    [discriminate Hraise|]. step.
  destruct (returns env _ (MessageReply msg BotMustBeAdministrator)) eqn:R;
    step; [exists true | exists false]; rewrite <- !app_assoc; reflexivity.
Qed.

(** ** The further properties at sample inputs *)

Lemma next_run_resumes_witness :
  fst (process_updates busy_env initial) = Val tt
  /\ loaded resumed_env = bot_data (snd (process_updates busy_env initial))
  /\ next_offset resumed_env = Some 44%Z.
Proof.
  assert (V : fst (process_updates busy_env initial) = Val tt)
    by reflexivity.
  split; [exact V|].
  apply (next_run_resumes busy_env resumed_env V).
  - vm_compute. do 2 right. left. reflexivity.
  - discriminate.
  - reflexivity.
Defined.

Lemma set_topic_outside_a_topic_witness :
  is_topic_message (plain_message (py "/set_topic")) <> Some true
  /\ process_update quiet_env
       {| update_id := 1; message := Some (plain_message (py "/set_topic")) |}
       initial
     = (Val tt,
        {| bot_data := default_data;
           data_changed := false;
           trace := [(GetChatMember 1 7, true);
                     (MessageReply (plain_message (py "/set_topic"))
                        UseInsideTopic, true)] |}).
Proof.
  assert (H : is_topic_message (plain_message (py "/set_topic")) <> Some true)
    by discriminate.
  split; [exact H|].
  apply (set_topic_outside_a_topic quiet_env _
           (plain_message (py "/set_topic")) (py "/set_topic") 7%Z initial).
  - reflexivity.
  - reflexivity.
  - reflexivity.
  - exact H.
  - reflexivity.
  - reflexivity.
  - left. reflexivity.
  - intros h c _. reflexivity.
Defined.

Lemma passed_over_batch_moves_offset_only_witness :
  store_and_fetch_return idle_env
  /\ process_updates idle_env initial =
       (Val tt,
        {| bot_data := default_data;
           data_changed := false;
           trace := [(GetData, true); (GetOffset, true);
                     (GetUpdates None, true); (SetOffset 43, true)] |}).
Proof.
  assert (R : store_and_fetch_return idle_env) by (intros h c _; reflexivity).
  split; [exact R|].
  apply (passed_over_batch_moves_offset_only idle_env R).
  - discriminate.
  - reflexivity.
Defined.

Lemma add_of_nothing_gets_usage_witness :
  Forall (fun c => isspace c = true) [32%N; nl]
  /\ process_update quiet_env (update_in 1 5 (py "/add" ++ [32%N; nl]))
       (bound_run [])
     = (Val tt,
        {| bot_data := bot_data (bound_run []);
           data_changed := false;
           trace := [(MessageReply (message_in 5 (py "/add" ++ [32%N; nl]))
                        AddUsage, true)] |}).
Proof.
  assert (B : Forall (fun c => isspace c = true) [32%N; nl])
    by (repeat constructor).
  split; [exact B|].
  apply (add_of_nothing_gets_usage quiet_env _
           (message_in 5 (py "/add" ++ [32%N; nl])) [32%N; nl] (bound_run [])).
  - reflexivity.
  - reflexivity.
  - exact B.
  - reflexivity.
  - intros h c _. reflexivity.
Defined.

Lemma candidates_are_clean_witness :
  In (py "Y") (candidates add_x_x_y) /\ clean (py "Y").
Proof.
  assert (H : In (py "Y") (candidates add_x_x_y))
    by (vm_compute; right; right; left; reflexivity).
  split; [exact H | exact (candidates_are_clean add_x_x_y (py "Y") H)].
Defined.

Lemma codes_go_out_in_the_order_added_witness :
  exists answer r',
    process_batch quiet_env
      [update_in 1 5 add_x_x_y; update_in 2 5 (py "/get");
       update_in 3 5 (py "/get")] (bound_run []) = (Val tt, r')
    /\ trace r' =
         [(MessageReply (message_in 5 add_x_x_y) answer, true);
          (SendMessage (Some 1%Z) (Some 5%Z)
             (CodeWithRemaining (py "X") 1), true);
          (SendMessage (Some 1%Z) (Some 5%Z)
             (CodeWithRemaining (py "Y") 0), true)].
Proof.
  destruct (codes_go_out_in_the_order_added quiet_env
              (update_in 1 5 add_x_x_y) (message_in 5 add_x_x_y) add_x_x_y
              [update_in 2 5 (py "/get"); update_in 3 5 (py "/get")]
              (bound_run []))
    as [answer [r' [P [T _]]]].
  - reflexivity.
  - reflexivity.
  - reflexivity.
  - reflexivity.
  - intros h c _. reflexivity.
  - apply well_formed_nil.
  - repeat constructor;
      exists (message_in 5 (py "/get")), (py "/get"); repeat split.
  - reflexivity.
  - exists answer, r'. split; [exact P | exact T].
Defined.

Lemma raising_run_keeps_the_offset_witness :
  fst (process_updates mute_env initial) = Exn
  /\ snd (store_after (trace (snd (process_updates mute_env initial)))
            (stored_data mute_env, stored_offset mute_env))
     = Some 41%Z.
Proof.
  assert (E : fst (process_updates mute_env initial) = Exn) by reflexivity.
  split; [exact E | exact (raising_run_keeps_the_offset mute_env E)].
Defined.

Lemma rebinding_moves_the_topic_witness :
  process_batch quiet_env
    [update_in 1 5 (py "/set_topic"); update_in 2 6 (py "/get")]
    (bound_run [fresh (py "A1")])
  = process_update quiet_env (update_in 1 5 (py "/set_topic"))
      (bound_run [fresh (py "A1")]).
Proof.
  destruct (rebinding_moves_the_topic quiet_env
              (update_in 1 5 (py "/set_topic"))
              (message_in 5 (py "/set_topic")) (py "/set_topic") 7%Z
              (bound_run [fresh (py "A1")])) as [H _].
  - reflexivity.
  - reflexivity.
  - reflexivity.
  - reflexivity.
  - reflexivity.
  - reflexivity.
  - left. reflexivity.
  - intros h c _. reflexivity.
  - split; simpl; repeat constructor. intros [].
  - apply (H (update_in 2 6 (py "/get")) (message_in 6 (py "/get"))).
    + reflexivity.
    + intros txt' [= <-]. reflexivity.
    + discriminate.
Defined.

Lemma refusal_falls_back_witness :
  ~ In (member_status strict_env [] 1%Z 7%Z) administrators
  /\ exists ok : bool,
       process_update strict_env (update_in 1 5 (py "/set_topic")) initial =
         (if ok then Val tt else Exn,
          {| bot_data := default_data;
             data_changed := false;
             trace := [(GetChatMember 1 7, true);
                       (MessageReply (message_in 5 (py "/set_topic"))
                          OnlyAdministrator, false);
                       (MessageReply (message_in 5 (py "/set_topic"))
                          BotMustBeAdministrator, ok)] |}).
Proof.
  assert (A : ~ In (member_status strict_env [] 1%Z 7%Z) administrators).
  { intros [H|[H|[]]]; discriminate. }
  split; [exact A|].
  apply (refusal_falls_back strict_env (update_in 1 5 (py "/set_topic"))
           (message_in 5 (py "/set_topic")) (py "/set_topic") 7%Z initial).
  - reflexivity.
  - reflexivity.
  - reflexivity.
  - reflexivity.
  - reflexivity.
  - exact A.
  - reflexivity.
Defined.

Lemma written_codes_are_well_formed_witness :
  well_formed (codes (loaded adding_env))
  /\ In (SetData
           {| config := {| target_chat_id := Some 1%Z;
                           target_thread_id := Some 5%Z |};
              codes := [(py "A1", {| is_used := Some true |});
                        fresh (py "X"); fresh (py "Y")] |}, true)
        (trace (snd (process_updates adding_env initial)))
  /\ well_formed [(py "A1", {| is_used := Some true |});
                  fresh (py "X"); fresh (py "Y")].
Proof.
  assert (W : well_formed (codes (loaded adding_env))).
  { split; simpl; repeat constructor; simpl; intuition discriminate. }
  assert (H : In (SetData
                    {| config := {| target_chat_id := Some 1%Z;
                                    target_thread_id := Some 5%Z |};
                       codes := [(py "A1", {| is_used := Some true |});
                                 fresh (py "X"); fresh (py "Y")] |}, true)
                 (trace (snd (process_updates adding_env initial)))).
  { vm_compute. do 4 right. left. reflexivity. }
  split; [exact W|]. split; [exact H|].
  exact (written_codes_are_well_formed adding_env _ true W H).
Defined.
